(** * Eigen/src/Core/Select.h: the coefficient-wise ternary expression

    A shallow embedding of [Select], of its trait descriptor
    [ei_traits<Select<...> >] and of the three [DenseBase::select] overloads,
    followed by the properties of the expression node.

    C++ templates are rendered as type classes: an expression type [T] comes
    with its element type ([ScalarType]), its static descriptor ([ei_traits])
    and its run-time interface ([DenseBase]). *)

From Stdlib Require Import ZArith List Bool Lia.
Import ListNotations.
Open Scope Z_scope.

(** ** Machine integers *)

(** [Index] is the signed index type of the library (a [ptrdiff_t]). *)
Definition Index := Z.

(** The cast [(unsigned int)x] of an enum constant: reduction modulo 2^32. *)
Definition to_uint (x : Z) : Z := x mod 2 ^ 32.

Definition is_uint (x : Z) : Prop := 0 <= x < 2 ^ 32.

(** ** Failing assertions *)

Inductive result (A : Type) : Type :=
| Ok (a : A)
| PreconditionViolation.
Arguments Ok {A} a.
Arguments PreconditionViolation {A}.

Definition result_bind {A B} (r : result A) (k : A -> result B) : result B :=
  match r with
  | Ok a => k a
  | PreconditionViolation => PreconditionViolation
  end.

Notation "r ;;! k" := (result_bind r (fun _ => k))
  (at level 61, right associativity).

(** Modelled from the spec: the macro [ei_assert] is defined outside
    Select.h; the spec describes it as an assertion-style fatal check, so a
    false condition ends construction with a precondition violation. *)
Definition ei_assert (cond : bool) : result unit :=
  if cond then Ok tt else PreconditionViolation.

(** ** Member functions as computations over the receiver

    A member function of a class [Self] is a computation that is handed the
    receiver [*this] and gives back a value together with the receiver's
    state after the call.  A [const] member function is built from [read]
    only. *)

Definition Method (Self A : Type) : Type := Self -> A * Self.

Definition ret {Self A} (a : A) : Method Self A := fun this => (a, this).

Definition bind {Self A B} (m : Method Self A) (k : A -> Method Self B)
  : Method Self B :=
  fun this => let (a, this') := m this in k a this'.

Definition read {Self A} (f : Self -> A) : Method Self A :=
  fun this => (f this, this).

Definition call {Self A} (m : Method Self A) (this : Self) : A := fst (m this).

Notation "x <- m ;; k" := (bind m (fun x => k))
  (at level 61, m at next level, right associativity).

(** ** The expression protocol consumed by Select.h *)

(** [ei_traits<T>::Scalar], the element type of an expression type.  It is
    kept in a class of its own so that the run-time interface does not
    depend on the numeric part of the descriptor. *)
Class ScalarType (T : Type) : Type := { Scalar : Type }.
Arguments Scalar T {_}.

Inductive XprKindTag : Type := MatrixXpr | ArrayXpr.

Inductive StorageKindTag : Type := Dense | Sparse.

(** The remaining members of [ei_traits<T>].  [Flags] is an enum constant
    holding an [unsigned int] bit set. *)
Class ei_traits (T : Type) : Type := {
  XprKind : XprKindTag;
  StorageKind : StorageKindTag;
  RowsAtCompileTime : Z;
  ColsAtCompileTime : Z;
  MaxRowsAtCompileTime : Z;
  MaxColsAtCompileTime : Z;
  Flags : Z;
  CoeffReadCost : Z;
  Flags_uint : is_uint Flags
}.
Arguments XprKind T {_}.
Arguments StorageKind T {_}.
Arguments RowsAtCompileTime T {_}.
Arguments ColsAtCompileTime T {_}.
Arguments MaxRowsAtCompileTime T {_}.
Arguments MaxColsAtCompileTime T {_}.
Arguments Flags T {_}.
Arguments CoeffReadCost T {_}.
Arguments Flags_uint T {_}.

(** The part of [DenseBase<T>] that Select.h calls on its operands:
    [rows()], [cols()], [coeff(Index,Index)] and [coeff(Index)], all
    [const]. *)
Class DenseBase (T : Type) {S : ScalarType T} : Type := {
  rows : T -> Index;
  cols : T -> Index;
  coeff : T -> Index -> Index -> Scalar T;
  coeff1 : T -> Index -> Scalar T
}.

(** The contextual conversion to [bool] performed by [if (x)]: a value
    converts to [false] exactly when it is the zero of its type. *)
Class ContextualBool (S : Type) : Type := {
  zero : S;
  to_bool : S -> bool;
  to_bool_spec : forall x, to_bool x = false <-> x = zero
}.

(** The implicit conversion applied by [return e;] in a function whose
    return type is [B] when [e] has type [A]. *)
Class ImplicitConv (A B : Type) : Type := implicit_conv : A -> B.

(** Instances are looked up for known types only. *)
#[global] Hint Mode ScalarType + : typeclass_instances.
#[global] Hint Mode DenseBase + - : typeclass_instances.
#[global] Hint Mode ImplicitConv + + : typeclass_instances.

(** Returning a value of the function's own return type converts nothing. *)
#[global] Instance conv_same (A : Type) : ImplicitConv A A := fun x => x.

#[global, refine] Instance bool_ContextualBool : ContextualBool bool :=
  {| zero := false; to_bool := fun b => b |}.
Proof. intros []; split; congruence. Defined.

#[global, refine] Instance int_ContextualBool : ContextualBool Z :=
  {| zero := 0; to_bool := fun z => negb (z =? 0) |}.
Proof.
  intros x; rewrite negb_false_iff, Z.eqb_eq; tauto.
Defined.

(** Constants of the library that Select.h uses and does not define. *)
Class Constants : Type := {
  HereditaryBits : Z
}.

(** Modelled from the spec: [EIGEN_SIZE_MAX] is a macro defined outside
    Select.h; the spec describes the cost as using the maximum of the two
    branch costs. *)
Definition EIGEN_SIZE_MAX (a b : Z) : Z := Z.max a b.

(** Modelled from the spec: [T::Nested] and [ei_cleantype] are defined
    outside Select.h.  The spec describes the nested storage as the operand
    held by value or by const reference; either way it is the operand
    expression itself that is read, and stripping the qualifiers gives the
    operand type back. *)
Definition Nested (T : Type) : Type := T.
Definition ei_cleantype (N : Type) : Type := N.
#[global] Typeclasses Transparent Nested ei_cleantype.

(** ** The expression node *)

(** [class Select]: the three operands, stored through [Nested]. *)
Record Select (ConditionMatrixType ThenMatrixType ElseMatrixType : Type)
  : Type := {
  m_condition : Nested ConditionMatrixType;
  m_then : Nested ThenMatrixType;
  m_else : Nested ElseMatrixType
}.
Arguments m_condition {_ _ _} _.
Arguments m_then {_ _ _} _.
Arguments m_else {_ _ _} _.

(** [typedef typename ei_traits<ThenMatrixType>::Scalar Scalar;] *)
#[global] Instance Select_Scalar (C T E : Type) {ST : ScalarType T}
  : ScalarType (Select C T E) := {| Scalar := Scalar T |}.

(** [ei_traits<Select<ConditionMatrixType, ThenMatrixType, ElseMatrixType> >],
    which derives from [ei_traits<ThenMatrixType>] and redefines the
    members below. *)
#[global, refine] Instance Select_traits {K : Constants} (C T E : Type)
  {trC : ei_traits C} {trT : ei_traits T} {trE : ei_traits E}
  : ei_traits (Select C T E) := {|
  XprKind := XprKind T;
  StorageKind := Dense;
  RowsAtCompileTime := RowsAtCompileTime C;
  ColsAtCompileTime := ColsAtCompileTime C;
  MaxRowsAtCompileTime := MaxRowsAtCompileTime C;
  MaxColsAtCompileTime := MaxColsAtCompileTime C;
  Flags := Z.land (Z.land (to_uint (Flags T)) (Flags E)) HereditaryBits;
  CoeffReadCost :=
    CoeffReadCost (ei_cleantype (Nested C))
    + EIGEN_SIZE_MAX (CoeffReadCost (ei_cleantype (Nested T)))
                     (CoeffReadCost (ei_cleantype (Nested E)))
|}.
Proof.
  unfold is_uint, to_uint.
  rewrite <- (Z.land_ones (Flags T) 32) by lia.
  rewrite <- !Z.land_assoc, (Z.land_comm (Z.ones 32)), !Z.land_assoc.
  rewrite Z.land_ones by lia.
  apply Z.mod_pos_bound; lia.
Defined.

Section SelectMembers.
Context {C T E : Type}.
Context {SC : ScalarType C} {ST : ScalarType T} {SE : ScalarType E}.
Context {DC : DenseBase C} {DT : DenseBase T} {DE : DenseBase E}.
Context {CB : ContextualBool (Scalar C)}.
Context {CV : ImplicitConv (Scalar E) (Scalar T)}.

(** The four comparisons made by the two assertions. *)
Definition same_shape (c : C) (t : T) (e : E) : Prop :=
  rows c = rows t /\ rows c = rows e /\ cols c = cols t /\ cols c = cols e.

(** The constructor: the members are initialised, then the two shape
    assertions run. *)
Definition Select_ctor (conditionMatrix : C) (thenMatrix : T)
  (elseMatrix : E) : result (Select C T E) :=
  let this := {| m_condition := conditionMatrix;
                 m_then := thenMatrix;
                 m_else := elseMatrix |} in
  ei_assert ((rows (m_condition this) =? rows (m_then this))
             && (rows (m_condition this) =? rows (m_else this))) ;;!
  ei_assert ((cols (m_condition this) =? cols (m_then this))
             && (cols (m_condition this) =? cols (m_else this))) ;;!
  Ok this.

Definition Select_rows : Method (Select C T E) Index :=
  read (fun this => rows (m_condition this)).

Definition Select_cols : Method (Select C T E) Index :=
  read (fun this => cols (m_condition this)).

(** [const Scalar coeff(Index i, Index j) const] *)
Definition Select_coeff (i j : Index)
  : Method (Select C T E) (Scalar (Select C T E)) :=
  c <- read (fun this => coeff (m_condition this) i j) ;;
  if to_bool c
  then read (fun this => coeff (m_then this) i j)
  else read (fun this => implicit_conv (coeff (m_else this) i j)).

(** [const Scalar coeff(Index i) const] *)
Definition Select_coeff1 (i : Index)
  : Method (Select C T E) (Scalar (Select C T E)) :=
  c <- read (fun this => coeff1 (m_condition this) i) ;;
  if to_bool c
  then read (fun this => coeff1 (m_then this) i)
  else read (fun this => implicit_conv (coeff1 (m_else this) i)).

(** A [Select] is itself a dense expression. *)
#[global] Instance Select_DenseBase : DenseBase (Select C T E) := {|
  rows := call Select_rows;
  cols := call Select_cols;
  coeff := fun this i j => call (Select_coeff i j) this;
  coeff1 := fun this i => call (Select_coeff1 i) this
|}.
End SelectMembers.

(** ** Constant expressions *)

(** Modelled from the spec: [Derived::ConstantReturnType] and
    [Derived::Constant(rows, cols, value)] are declared outside Select.h.
    The spec describes a constant-valued expression of the requested shape,
    filled uniformly with the value, whose element type is that of
    [Derived]. *)
Record ConstantReturnType (Derived : Type) {S : ScalarType Derived}
  : Type := {
  cst_rows : Index;
  cst_cols : Index;
  cst_value : Scalar Derived
}.
Arguments cst_rows {_ _} _.
Arguments cst_cols {_ _} _.
Arguments cst_value {_ _} _.

#[global] Instance Constant_Scalar (Derived : Type) {S : ScalarType Derived}
  : ScalarType (ConstantReturnType Derived) :=
  {| Scalar := Scalar Derived |}.

#[global] Instance Constant_DenseBase (Derived : Type)
  {S : ScalarType Derived} : DenseBase (ConstantReturnType Derived) := {|
  rows := fun this : ConstantReturnType Derived => cst_rows this;
  cols := fun this : ConstantReturnType Derived => cst_cols this;
  coeff := fun (this : ConstantReturnType Derived) _ _ => cst_value this;
  coeff1 := fun (this : ConstantReturnType Derived) _ => cst_value this
|}.

Definition Constant (Derived : Type) {S : ScalarType Derived}
  (rows cols : Index) (value : Scalar Derived) : ConstantReturnType Derived :=
  {| cst_rows := rows; cst_cols := cols; cst_value := value |}.

(** A constant expression has the element type of [Derived], so a node
    that pairs it with an expression of type [Derived] converts nothing. *)
#[global] Instance conv_from_Constant (Derived : Type)
  {S : ScalarType Derived}
  : ImplicitConv (Scalar (ConstantReturnType Derived)) (Scalar Derived) :=
  conv_same (Scalar Derived).

#[global] Instance conv_to_Constant (Derived : Type)
  {S : ScalarType Derived}
  : ImplicitConv (Scalar Derived) (Scalar (ConstantReturnType Derived)) :=
  conv_same (Scalar Derived).

(** ** The three overloads of [DenseBase<Derived>::select] *)

(** [derived()]: the receiver seen at its own expression type. *)
Definition derived {Derived : Type} (x : Derived) : Derived := x.

Section Factories.
Context {Derived : Type} {SD : ScalarType Derived} {DD : DenseBase Derived}.
Context {CB : ContextualBool (Scalar Derived)}.

(** [select(const DenseBase<ThenDerived>&, const DenseBase<ElseDerived>&)] *)
Definition select {ThenDerived ElseDerived : Type}
  {ST : ScalarType ThenDerived} {SE : ScalarType ElseDerived}
  {DT : DenseBase ThenDerived} {DE : DenseBase ElseDerived}
  {CV : ImplicitConv (Scalar ElseDerived) (Scalar ThenDerived)}
  (this : Derived) (thenMatrix : ThenDerived) (elseMatrix : ElseDerived)
  : result (Select Derived ThenDerived ElseDerived) :=
  Select_ctor (derived this) (derived thenMatrix) (derived elseMatrix).

(** [select(const DenseBase<ThenDerived>&, typename ThenDerived::Scalar)] *)
Definition select_elseScalar {ThenDerived : Type}
  {ST : ScalarType ThenDerived} {DT : DenseBase ThenDerived}
  (this : Derived) (thenMatrix : ThenDerived)
  (elseScalar : Scalar ThenDerived)
  : result (Select Derived ThenDerived (ConstantReturnType ThenDerived)) :=
  Select_ctor (derived this) (derived thenMatrix)
    (Constant ThenDerived (rows this) (cols this) elseScalar).

(** [select(typename ElseDerived::Scalar, const DenseBase<ElseDerived>&)] *)
Definition select_thenScalar {ElseDerived : Type}
  {SE : ScalarType ElseDerived} {DE : DenseBase ElseDerived}
  (this : Derived) (thenScalar : Scalar ElseDerived)
  (elseMatrix : ElseDerived)
  : result (Select Derived (ConstantReturnType ElseDerived) ElseDerived) :=
  Select_ctor (derived this)
    (Constant ElseDerived (rows this) (cols this) thenScalar)
    (derived elseMatrix).
End Factories.

(** ** Operand accessors as calls

    Select.h calls [coeff] on its three operands and does not define what
    those calls do.  To state what the node's own accessors do to the
    state of the node and of its operands, an operand accessor is taken
    here as a call on the operand: it returns a value together with the
    operand's state after the call, which an operand with a cache or a
    counter of its own may have changed. *)
Class DenseCalls (T : Type) {S : ScalarType T} : Type := {
  coeff_call : Index -> Index -> Method T (Scalar T);
  coeff1_call : Index -> Method T (Scalar T)
}.
#[global] Hint Mode DenseCalls + - : typeclass_instances.

(** An operand whose accessors only read it. *)
Definition const_calls (T : Type) {S : ScalarType T} {D : DenseBase T}
  : DenseCalls T :=
  {| coeff_call := fun i j => read (fun x : T => coeff x i j);
     coeff1_call := fun i => read (fun x : T => coeff1 x i) |}.

(** A call leaves its receiver as it found it. *)
Definition unchanged_by {Self A : Type} (m : Method Self A) (x : Self)
  : Prop := snd (m x) = x.

(** A call on a member of the node: the member's state after the call
    replaces the member, the other two members are not touched. *)
Definition on_condition {C T E A : Type} (m : Method C A)
  : Method (Select C T E) A :=
  fun this =>
    let (a, c') := m (m_condition this) in
    (a, {| m_condition := c'; m_then := m_then this;
           m_else := m_else this |}).

Definition on_then {C T E A : Type} (m : Method T A)
  : Method (Select C T E) A :=
  fun this =>
    let (a, t') := m (m_then this) in
    (a, {| m_condition := m_condition this; m_then := t';
           m_else := m_else this |}).

Definition on_else {C T E A : Type} (m : Method E A)
  : Method (Select C T E) A :=
  fun this =>
    let (a, e') := m (m_else this) in
    (a, {| m_condition := m_condition this; m_then := m_then this;
           m_else := e' |}).

Section SelectCalls.
Context {C T E : Type}.
Context {SC : ScalarType C} {ST : ScalarType T} {SE : ScalarType E}.
Context {KC : DenseCalls C} {KT : DenseCalls T} {KE : DenseCalls E}.
Context {CB : ContextualBool (Scalar C)}.
Context {CV : ImplicitConv (Scalar E) (Scalar T)}.

(** [const Scalar coeff(Index i, Index j) const], with the three operand
    accessors as calls. *)
Definition Select_coeff_call (i j : Index)
  : Method (Select C T E) (Scalar (Select C T E)) :=
  c <- on_condition (coeff_call i j) ;;
  if to_bool c
  then on_then (coeff_call i j)
  else v <- on_else (coeff_call i j) ;; ret (implicit_conv v).

(** [const Scalar coeff(Index i) const], likewise. *)
Definition Select_coeff1_call (i : Index)
  : Method (Select C T E) (Scalar (Select C T E)) :=
  c <- on_condition (coeff1_call i) ;;
  if to_bool c
  then on_then (coeff1_call i)
  else v <- on_else (coeff1_call i) ;; ret (implicit_conv v).

#[global] Instance Select_DenseCalls : DenseCalls (Select C T E) := {|
  coeff_call := Select_coeff_call;
  coeff1_call := Select_coeff1_call
|}.
End SelectCalls.

(** ** Linear coefficient access *)

Inductive StorageOrder : Type := ColMajor | RowMajor.

(** Modelled from the spec: the storage orders and the meaning of a linear
    index live outside Select.h.  A linear index enumerates the coefficients
    of an [r] x [c] expression column after column or row after row. *)
Definition coord_of (o : StorageOrder) (r c : Index) (i : Index)
  : Index * Index :=
  match o with
  | ColMajor => (i mod r, i / r)
  | RowMajor => (i / c, i mod c)
  end.

(** An expression supports linear access in order [o] when its single-index
    accessor reads the coefficient at the coordinate the index denotes. *)
Definition LinearAccess {T : Type} {S : ScalarType T} {D : DenseBase T}
  (o : StorageOrder) (x : T) : Prop :=
  forall i : Index, 0 <= i < rows x * cols x ->
    coeff1 x i = coeff x (fst (coord_of o (rows x) (cols x) i))
                         (snd (coord_of o (rows x) (cols x) i)).

(** ** Plain matrices, the operands of the examples *)

(** Modelled from the spec: the plain matrix type is defined outside
    Select.h.  It is a dense buffer in column-major order: coefficient
    [(i,j)] is entry [i + j * rows] of the buffer. *)
Record Matrix (S : Type) : Type := {
  mx_rows : Index;
  mx_cols : Index;
  mx_data : list S;
  mx_pad : S
}.
Arguments mx_rows {S} _.
Arguments mx_cols {S} _.
Arguments mx_data {S} _.
Arguments mx_pad {S} _.

#[global] Instance Matrix_Scalar (S : Type) : ScalarType (Matrix S) :=
  {| Scalar := S |}.

#[global] Instance Matrix_DenseBase (S : Type) : DenseBase (Matrix S) := {|
  rows := fun m : Matrix S => mx_rows m;
  cols := fun m : Matrix S => mx_cols m;
  coeff := fun (m : Matrix S) i j =>
    nth (Z.to_nat (i + j * mx_rows m)) (mx_data m) (mx_pad m);
  coeff1 := fun (m : Matrix S) k => nth (Z.to_nat k) (mx_data m) (mx_pad m)
|}.

#[global] Instance Matrix_ContextualBool (S : Type) {CB : ContextualBool S}
  : ContextualBool (Scalar (Matrix S)) := CB.

(** A matrix written row by row, as in the documentation's examples. *)
Definition matrix_of_rows {S : Type} (pad : S) (r c : Index)
  (l : list (list S)) : Matrix S :=
  {| mx_rows := r;
     mx_cols := c;
     mx_data := flat_map (fun j => map (fun row => nth j row pad) l)
                         (seq 0 (Z.to_nat c));
     mx_pad := pad |}.

Definition cond22 : Matrix bool :=
  matrix_of_rows false 2 2 [[true; false]; [false; true]].
Definition then22 : Matrix Z := matrix_of_rows 0 2 2 [[1; 2]; [3; 4]].
Definition else22 : Matrix Z := matrix_of_rows 0 2 2 [[10; 20]; [30; 40]].
Definition node22 : Select (Matrix bool) (Matrix Z) (Matrix Z) :=
  {| m_condition := cond22; m_then := then22; m_else := else22 |}.

Definition cond12 : Matrix bool := matrix_of_rows false 1 2 [[true; false]].
Definition then12 : Matrix Z := matrix_of_rows 0 1 2 [[5; 6]].

Definition zeros12 : ConstantReturnType (Matrix Z) :=
  Constant (Matrix Z) 1 2 0.

Definition cond03 : Matrix bool := matrix_of_rows false 0 3 [].
Definition then03 : Matrix Z := matrix_of_rows 0 0 3 [].
Definition else03 : Matrix Z := matrix_of_rows 0 0 3 [].

Definition cond23 : Matrix bool :=
  matrix_of_rows false 2 3 [[true; false; true]; [false; true; false]].

Definition node03 : Select (Matrix bool) (Matrix Z) (Matrix Z) :=
  {| m_condition := cond03; m_then := then03; m_else := else03 |}.

Definition sevens12 : ConstantReturnType (Matrix Z) :=
  Constant (Matrix Z) 1 2 7.

(** The standard conversion from an integer to [bool], used when the then
    operand is a matrix of [bool] and the else operand a matrix of
    integers. *)
#[global] Instance conv_int_bool
  : ImplicitConv (Scalar (Matrix Z)) (Scalar (Matrix bool)) :=
  fun z : Z => negb (z =? 0).

Definition cond11 : Matrix bool := matrix_of_rows false 1 1 [[false]].
Definition then11 : Matrix bool := matrix_of_rows false 1 1 [[false]].
Definition else11 : Matrix Z := matrix_of_rows 0 1 1 [[2]].
Definition node11 : Select (Matrix bool) (Matrix bool) (Matrix Z) :=
  {| m_condition := cond11; m_then := then11; m_else := else11 |}.

(** Further operands for the scenarios: the inverse of [cond22], a third
    value matrix, and nodes built from nodes. *)
Definition ncond22 : Matrix bool :=
  matrix_of_rows false 2 2 [[false; true]; [true; false]].
Definition other22 : Matrix Z :=
  matrix_of_rows 0 2 2 [[100; 200]; [300; 400]].
Definition swapped22 : Select (Matrix bool) (Matrix Z) (Matrix Z) :=
  {| m_condition := ncond22; m_then := else22; m_else := then22 |}.
Definition same22 : Select (Matrix bool) (Matrix Z) (Matrix Z) :=
  {| m_condition := cond22; m_then := then22; m_else := then22 |}.
Definition flat22 : Select (Matrix bool) (Matrix Z) (Matrix Z) :=
  {| m_condition := cond22; m_then := then22; m_else := other22 |}.

Definition zeromat12 : Matrix Z := matrix_of_rows 5 1 2 [[0; 0]].

Definition then_nested22
  : Select (Matrix bool) (Select (Matrix bool) (Matrix Z) (Matrix Z))
      (Matrix Z) :=
  {| m_condition := cond22; m_then := node22; m_else := other22 |}.
Definition else_nested22
  : Select (Matrix bool) (Matrix Z)
      (Select (Matrix bool) (Matrix Z) (Matrix Z)) :=
  {| m_condition := cond22; m_then := then22; m_else := flat22 |}.
Definition outer22
  : Select (Matrix bool) (Select (Matrix bool) (Matrix Z) (Matrix Z))
      (Matrix Z) :=
  {| m_condition := ncond22; m_then := node22; m_else := other22 |}.

(** Plain matrices are only read by their accessors. *)
#[global] Instance Matrix_DenseCalls (S : Type) : DenseCalls (Matrix S) :=
  const_calls (Matrix S).

(** An operand that counts the reads made of it and returns the count. *)
Record Counting : Type := { reads : Z }.

#[global] Instance Counting_Scalar : ScalarType Counting :=
  {| Scalar := Z |}.

#[global] Instance Counting_DenseCalls : DenseCalls Counting := {|
  coeff_call := fun _ _ (x : Counting) =>
    (reads x, {| reads := reads x + 1 |});
  coeff1_call := fun _ (x : Counting) =>
    (reads x, {| reads := reads x + 1 |})
|}.

Definition counting22 : Select (Matrix bool) Counting Counting :=
  {| m_condition := cond22; m_then := {| reads := 0 |};
     m_else := {| reads := 10 |} |}.

(** An example mask and example descriptors for the scenarios.  The
    library's own values are defined outside Select.h, and no property
    below depends on them. *)
Definition example_Constants : Constants := {| HereditaryBits := 7 |}.

Definition plain_traits (S : Type) (r c flags cost : Z)
  (Hf : is_uint flags) : ei_traits (Matrix S) :=
  {| XprKind := MatrixXpr;
     StorageKind := Dense;
     RowsAtCompileTime := r;
     ColsAtCompileTime := c;
     MaxRowsAtCompileTime := r;
     MaxColsAtCompileTime := c;
     Flags := flags;
     CoeffReadCost := cost;
     Flags_uint := Hf |}.

Definition small_is_uint (x : Z) (H : (0 <=? x) && (x <? 2 ^ 32) = true)
  : is_uint x :=
  let (H0, H1) := andb_prop _ _ H in
  conj (proj1 (Z.leb_le 0 x) H0) (proj1 (Z.ltb_lt x (2 ^ 32)) H1).

Definition cond_traits : ei_traits (Matrix bool) :=
  plain_traits bool 2 2 16 1 (small_is_uint 16 eq_refl).
Definition then_traits : ei_traits (Matrix Z) :=
  plain_traits Z 2 2 11 2 (small_is_uint 11 eq_refl).
Definition else_traits : ei_traits (Matrix Z) :=
  plain_traits Z 2 2 14 5 (small_is_uint 14 eq_refl).

(** * Properties *)

(** ** Assertions and the constructor *)

Section NodeFacts.
Context {C T E : Type}.
Context {SC : ScalarType C} {ST : ScalarType T} {SE : ScalarType E}.
Context {DC : DenseBase C} {DT : DenseBase T} {DE : DenseBase E}.
Context {CB : ContextualBool (Scalar C)}.
Context {CV : ImplicitConv (Scalar E) (Scalar T)}.

Lemma Select_ctor_cases (c : C) (t : T) (e : E) :
  (same_shape c t e /\
   Select_ctor c t e = Ok {| m_condition := c; m_then := t; m_else := e |})
  \/ (~ same_shape c t e /\ Select_ctor c t e = PreconditionViolation).
Proof.
  unfold Select_ctor, same_shape, Nested; cbn [m_condition m_then m_else].
  destruct (Z.eqb_spec (rows c) (rows t)) as [Hrt | Hrt];
    destruct (Z.eqb_spec (rows c) (rows e)) as [Hre | Hre];
    cbn [andb ei_assert result_bind]; try (right; split; [tauto | reflexivity]).
  destruct (Z.eqb_spec (cols c) (cols t)) as [Hct | Hct];
    destruct (Z.eqb_spec (cols c) (cols e)) as [Hce | Hce];
    cbn [andb ei_assert result_bind]; try (right; split; [tauto | reflexivity]).
  left; split; [tauto | reflexivity].
Qed.

Lemma Select_ctor_Ok (c : C) (t : T) (e : E) (n : Select C T E) :
  Select_ctor c t e = Ok n ->
  same_shape c t e /\ n = {| m_condition := c; m_then := t; m_else := e |}.
Proof.
  intros H; destruct (Select_ctor_cases c t e) as [[Hs Hn] | [_ Hn]];
    rewrite Hn in H; [injection H as <-; auto | discriminate].
Qed.

(** The run of the two-index accessor on a node. *)
Lemma Select_coeff_run (this : Select C T E) (i j : Index) :
  Select_coeff i j this =
  (if to_bool (coeff (m_condition this) i j)
   then coeff (m_then this) i j
   else implicit_conv (coeff (m_else this) i j), this).
Proof.
  unfold Select_coeff, bind, read.
  destruct (to_bool (coeff (m_condition this) i j)); reflexivity.
Qed.

Lemma Select_coeff1_run (this : Select C T E) (i : Index) :
  Select_coeff1 i this =
  (if to_bool (coeff1 (m_condition this) i)
   then coeff1 (m_then this) i
   else implicit_conv (coeff1 (m_else this) i), this).
Proof.
  unfold Select_coeff1, bind, read.
  destruct (to_bool (coeff1 (m_condition this) i)); reflexivity.
Qed.

Lemma to_bool_nonzero (x : Scalar C) : to_bool x = true <-> x <> zero.
Proof.
  pose proof (to_bool_spec x) as Hs.
  destruct (to_bool x); split; intros H; try congruence.
  - intros Hz; apply Hs in Hz; discriminate.
  - exfalso; apply H, Hs; reflexivity.
Qed.

(** C1. For condition, then and else operands of one shape R x C and a
    coordinate (i,j) inside it, the node's [coeff(i,j)] is the then
    operand's coefficient when the condition's coefficient is true (differs
    from the zero of its element type) and the else operand's coefficient
    otherwise.  The else coefficient is returned at the node's element
    type, which converts nothing when then and else share it. *)
Theorem Select_coeff_dispatch (c : C) (t : T) (e : E) (n : Select C T E)
  (R Cn i j : Index) :
  rows c = R -> cols c = Cn ->
  rows t = R -> cols t = Cn ->
  rows e = R -> cols e = Cn ->
  Select_ctor c t e = Ok n ->
  0 <= i < R -> 0 <= j < Cn ->
  (coeff c i j <> zero -> coeff n i j = coeff t i j) /\
  (coeff c i j = zero -> coeff n i j = implicit_conv (coeff e i j)).
Proof.
  intros _ _ _ _ _ _ Hn _ _.
  apply Select_ctor_Ok in Hn as [_ ->].
  cbn [coeff Select_DenseBase]; unfold call.
  rewrite Select_coeff_run; cbn [fst m_condition m_then m_else].
  unfold Nested.
  split; intros Hc.
  - apply to_bool_nonzero in Hc; rewrite Hc; reflexivity.
  - apply to_bool_spec in Hc; rewrite Hc; reflexivity.
Qed.

(** C3. Construction ends in the precondition violation exactly when the
    three shapes disagree in some row or column count.  Nothing is cut or
    repeated to make the shapes fit: with disagreeing shapes there is no
    node, and with agreeing shapes the node holds the three operands as
    they were given, so the failing branch cannot be taken. *)
Theorem Select_ctor_fails_iff (c : C) (t : T) (e : E) :
  (Select_ctor c t e = PreconditionViolation <->
   ~ (rows c = rows t /\ rows c = rows e /\
      cols c = cols t /\ cols c = cols e)) /\
  (rows c = rows t /\ rows c = rows e /\
   cols c = cols t /\ cols c = cols e ->
   Select_ctor c t e = Ok {| m_condition := c; m_then := t; m_else := e |}) /\
  (forall n : Select C T E, Select_ctor c t e = Ok n ->
   m_condition n = c /\ m_then n = t /\ m_else n = e).
Proof.
  fold (same_shape c t e).
  destruct (Select_ctor_cases c t e) as [[Hs Hn] | [Hs Hn]]; rewrite Hn.
  - split; [split; [discriminate | tauto] | split; [reflexivity |]].
    intros n Hok; injection Hok as <-; auto.
  - split; [tauto | split; [tauto | discriminate]].
Qed.

(** C8. On a node whose three operands support linear access in one common
    element order, the single-index accessor makes the same choice as the
    two-index one: at a valid linear index it returns the then operand's
    coefficient when the condition's is true and the else operand's
    otherwise, and it agrees with [coeff(row,col)] at the coordinate the
    index denotes. *)
Theorem Select_coeff1_dispatch (o : StorageOrder) (c : C) (t : T) (e : E)
  (n : Select C T E) (i : Index) :
  Select_ctor c t e = Ok n ->
  LinearAccess o c -> LinearAccess o t -> LinearAccess o e ->
  0 <= i < rows n * cols n ->
  (coeff1 c i <> zero -> coeff1 n i = coeff1 t i) /\
  (coeff1 c i = zero -> coeff1 n i = implicit_conv (coeff1 e i)) /\
  coeff1 n i = coeff n (fst (coord_of o (rows n) (cols n) i))
                       (snd (coord_of o (rows n) (cols n) i)).
Proof.
  intros Hn Lc Lt Le Hi.
  apply Select_ctor_Ok in Hn as [(Hrt & Hre & Hct & Hce) ->].
  cbn [rows cols coeff coeff1 Select_DenseBase] in *; unfold call in *.
  rewrite Select_coeff1_run, Select_coeff_run.
  cbn [fst snd Select_rows Select_cols read m_condition m_then m_else] in *.
  unfold Nested in *.
  repeat split.
  - intros Hc; apply to_bool_nonzero in Hc; rewrite Hc; reflexivity.
  - intros Hc; apply to_bool_spec in Hc; rewrite Hc; reflexivity.
  - rewrite (Lc i Hi).
    rewrite (Lt i) by (rewrite <- Hrt, <- Hct; exact Hi).
    rewrite (Le i) by (rewrite <- Hre, <- Hce; exact Hi).
    rewrite <- Hrt, <- Hct, <- Hre, <- Hce; reflexivity.
Qed.
End NodeFacts.

(** When the then and else operands have one element type, returning the
    else coefficient converts nothing: the node's coefficient is literally
    the coefficient of the chosen operand. *)
Section SharedScalar.
Context {C T E : Type} {SC : ScalarType C} {ST : ScalarType T}.
Context {DC : DenseBase C} {DT : DenseBase T}.
Context {CB : ContextualBool (Scalar C)}.
Let SE : ScalarType E := {| Scalar := Scalar T |}.
#[local] Existing Instance SE.
Context {DE : DenseBase E}.
Let CV : ImplicitConv (Scalar E) (Scalar T) := conv_same (Scalar T).
#[local] Existing Instance CV.

Lemma Select_coeff_shared_Scalar (n : Select C T E) (i j : Index) :
  (coeff (m_condition n) i j <> zero ->
   coeff n i j = coeff (m_then n) i j) /\
  (coeff (m_condition n) i j = zero ->
   coeff n i j = coeff (m_else n) i j).
Proof.
  cbn [coeff Select_DenseBase]; unfold call.
  rewrite Select_coeff_run; cbn [fst]; unfold Nested.
  split; intros Hc.
  - apply to_bool_nonzero in Hc; rewrite Hc; reflexivity.
  - apply to_bool_spec in Hc; rewrite Hc; reflexivity.
Qed.
End SharedScalar.

(** ** The factory overloads *)

Section FactoryFacts.
Context {D T E : Type}.
Context {SD : ScalarType D} {ST : ScalarType T} {SE : ScalarType E}.
Context {DD : DenseBase D} {DT : DenseBase T} {DE : DenseBase E}.
Context {CB : ContextualBool (Scalar D)}.
Context {CV : ImplicitConv (Scalar E) (Scalar T)}.

Lemma Select_ctor_shape {X Y : Type} {SX : ScalarType X} {SY : ScalarType Y}
  {DX : DenseBase X} {DY : DenseBase Y}
  {CXY : ImplicitConv (Scalar Y) (Scalar X)}
  (c : D) (x : X) (y : Y) (n : Select D X Y) :
  Select_ctor c x y = Ok n -> rows n = rows c /\ cols n = cols c.
Proof.
  intros Hn; apply Select_ctor_Ok in Hn as [_ ->]; split; reflexivity.
Qed.

(** C2. A constructed node has the row and column counts of its condition
    operand, whatever they are (zero included).  This holds for the
    constructor and for each of the three [select] overloads, whose
    condition is the invoking expression; the compile-time sizes of the
    descriptor are the condition's too. *)
Theorem Select_shape {K : Constants}
  {trD : ei_traits D} {trT : ei_traits T} {trE : ei_traits E}
  (this : D) (t : T) (e : E) (kT : Scalar T) (kE : Scalar E) :
  (forall n, Select_ctor this t e = Ok n ->
     rows n = rows this /\ cols n = cols this) /\
  (forall n, select this t e = Ok n ->
     rows n = rows this /\ cols n = cols this) /\
  (forall n, select_elseScalar this t kT = Ok n ->
     rows n = rows this /\ cols n = cols this) /\
  (forall n, select_thenScalar this kE e = Ok n ->
     rows n = rows this /\ cols n = cols this) /\
  RowsAtCompileTime (Select D T E) = RowsAtCompileTime D /\
  ColsAtCompileTime (Select D T E) = ColsAtCompileTime D /\
  MaxRowsAtCompileTime (Select D T E) = MaxRowsAtCompileTime D /\
  MaxColsAtCompileTime (Select D T E) = MaxColsAtCompileTime D.
Proof.
  repeat split; try reflexivity;
    unfold select, select_elseScalar, select_thenScalar, derived in *;
    eapply Select_ctor_shape; eassumption.
Qed.

(** C6. [select(thenExpr, k)] and [select(thenExpr, constantExpr)], where
    [constantExpr] has the invoking expression's shape and every
    coefficient of it is [k], succeed together or fail together, and on
    success the two nodes have the same coefficient at every coordinate of
    the shared shape. *)
Theorem select_elseScalar_promotes (this : D) (t : T) (k : Scalar T)
  (constantExpr : E) :
  rows constantExpr = rows this -> cols constantExpr = cols this ->
  (forall i j, 0 <= i < rows this -> 0 <= j < cols this ->
     implicit_conv (coeff constantExpr i j) = k) ->
  (forall n1, select_elseScalar this t k = Ok n1 ->
     exists n2, select this t constantExpr = Ok n2 /\
       forall i j, 0 <= i < rows this -> 0 <= j < cols this ->
         coeff n1 i j = coeff n2 i j) /\
  (select_elseScalar this t k = PreconditionViolation ->
   select this t constantExpr = PreconditionViolation).
Proof.
  intros Hr Hc Hk.
  unfold select, select_elseScalar, derived.
  destruct (Select_ctor_cases this t constantExpr) as [[Hs Hn] | [Hs Hn]];
    destruct (Select_ctor_cases this t
                (Constant T (rows this) (cols this) k)) as [[Hs' Hn'] | [Hs' Hn']];
    rewrite Hn, Hn'; unfold same_shape in *;
    cbn [rows cols Constant_DenseBase Constant cst_rows cst_cols] in *.
  - split; [| discriminate].
    intros n1 H1; injection H1 as <-; eexists; split; [reflexivity |].
    intros i j Hi Hj.
    cbn [coeff Select_DenseBase]; unfold call.
    rewrite !Select_coeff_run; cbn [fst m_condition m_then m_else].
    cbn [coeff Constant_DenseBase Constant cst_value].
    unfold Nested; rewrite (Hk i j Hi Hj); reflexivity.
  - exfalso; apply Hs'; intuition congruence.
  - exfalso; apply Hs; intuition congruence.
  - split; [discriminate | reflexivity].
Qed.

(** C10. The scalar of the else-scalar overload has the then operand's
    element type and is promoted to a constant expression of the then
    operand's constant-expression type: whenever the then operand has the
    invoking shape the overload returns the node that holds the invoking
    expression, the then operand and [ThenDerived::Constant] of the
    invoking shape filled with the scalar, and otherwise it fails.  The
    then-scalar overload does the same with the else operand's element
    type and [ElseDerived::Constant], so that its node has the else
    operand's element type and returns the scalar, as it was given, where
    the condition is true. *)
Theorem select_scalar_overloads (this : D) (t : T) (e : E)
  (elseScalar : Scalar T) (thenScalar : Scalar E) :
  (Scalar (ConstantReturnType T) = Scalar T /\
   Scalar (ConstantReturnType E) = Scalar E /\
   Scalar (Select D T (ConstantReturnType T)) = Scalar T /\
   Scalar (Select D (ConstantReturnType E) E) = Scalar E) /\
  (rows this = rows t /\ cols this = cols t ->
   select_elseScalar this t elseScalar
   = Ok {| m_condition := this; m_then := t;
           m_else := Constant T (rows this) (cols this) elseScalar |}) /\
  (~ (rows this = rows t /\ cols this = cols t) ->
   select_elseScalar this t elseScalar = PreconditionViolation) /\
  (rows this = rows e /\ cols this = cols e ->
   select_thenScalar this thenScalar e
   = Ok {| m_condition := this;
           m_then := Constant E (rows this) (cols this) thenScalar;
           m_else := e |}) /\
  (~ (rows this = rows e /\ cols this = cols e) ->
   select_thenScalar this thenScalar e = PreconditionViolation) /\
  (forall n, select_elseScalar this t elseScalar = Ok n ->
     rows (m_else n) = rows this /\ cols (m_else n) = cols this /\
     (forall i j, coeff (m_else n) i j = elseScalar) /\
     (forall i j, coeff n i j
        = if to_bool (coeff this i j) then coeff t i j else elseScalar)) /\
  (forall n, select_thenScalar this thenScalar e = Ok n ->
     rows (m_then n) = rows this /\ cols (m_then n) = cols this /\
     (forall i j, coeff (m_then n) i j = thenScalar) /\
     (forall i j, (coeff n i j : Scalar E)
        = if to_bool (coeff this i j) then thenScalar else coeff e i j)).
Proof.
  split; [repeat split |].
  unfold select_elseScalar, select_thenScalar, derived.
  destruct (Select_ctor_cases this t
              (Constant T (rows this) (cols this) elseScalar))
    as [[Hs Hn] | [Hs Hn]];
    destruct (Select_ctor_cases this
                (Constant E (rows this) (cols this) thenScalar) e)
      as [[Hs' Hn'] | [Hs' Hn']];
    rewrite Hn, Hn'; unfold same_shape in Hs, Hs';
    cbn [rows cols Constant_DenseBase Constant cst_rows cst_cols] in Hs, Hs'.
  - split; [reflexivity |]. split; [intros Hx; exfalso; tauto |].
    split; [reflexivity |]. split; [intros Hx; exfalso; tauto |].
    split; intros n Hk; injection Hk as <-;
      (split; [reflexivity |]); (split; [reflexivity |]);
      (split; [reflexivity |]); intros i j;
      cbn [coeff Select_DenseBase]; unfold call;
      rewrite Select_coeff_run; reflexivity.
  - split; [reflexivity |]. split; [intros Hx; exfalso; tauto |].
    split; [intros Hx; exfalso; tauto |]. split; [reflexivity |].
    split; intros n Hk; [| discriminate Hk]. injection Hk as <-.
    (split; [reflexivity |]); (split; [reflexivity |]);
      (split; [reflexivity |]); intros i j;
      cbn [coeff Select_DenseBase]; unfold call;
      rewrite Select_coeff_run; reflexivity.
  - split; [intros Hx; exfalso; tauto |]. split; [reflexivity |].
    split; [reflexivity |]. split; [intros Hx; exfalso; tauto |].
    split; intros n Hk; [discriminate Hk |]. injection Hk as <-.
    (split; [reflexivity |]); (split; [reflexivity |]);
      (split; [reflexivity |]); intros i j;
      cbn [coeff Select_DenseBase]; unfold call;
      rewrite Select_coeff_run; reflexivity.
  - split; [intros Hx; exfalso; tauto |]. split; [reflexivity |].
    split; [intros Hx; exfalso; tauto |]. split; [reflexivity |].
    split; intros n Hk; discriminate Hk.
Qed.
End FactoryFacts.

(** ** The trait descriptor *)

Section TraitFacts.
Context {K : Constants} {C T E : Type}.
Context {trC : ei_traits C} {trT : ei_traits T} {trE : ei_traits E}.

Lemma to_uint_id (x : Z) : is_uint x -> to_uint x = x.
Proof. intros H; apply Z.mod_small; exact H. Qed.

(** C4. The cost estimate of the node's descriptor is the condition
    operand's cost plus the larger of the then and else operands' costs; it
    therefore covers reading the condition and either one of the
    branches. *)
Theorem Select_CoeffReadCost :
  CoeffReadCost (Select C T E)
  = CoeffReadCost C + Z.max (CoeffReadCost T) (CoeffReadCost E) /\
  CoeffReadCost C + CoeffReadCost T <= CoeffReadCost (Select C T E) /\
  CoeffReadCost C + CoeffReadCost E <= CoeffReadCost (Select C T E).
Proof.
  cbn [CoeffReadCost Select_traits].
  unfold EIGEN_SIZE_MAX, ei_cleantype, Nested; lia.
Qed.

(** C5. The flags of the node's descriptor are the bitwise conjunction of
    the then operand's flags, the else operand's flags and the mask
    [HereditaryBits]: a bit is set exactly when it is set in all three.
    The condition operand's flags play no part: any other condition type
    gives the same flags. *)
Theorem Select_Flags :
  Flags (Select C T E)
  = Z.land (Z.land (Flags T) (Flags E)) HereditaryBits /\
  (forall b : Z, 0 <= b ->
     Z.testbit (Flags (Select C T E)) b
     = Z.testbit (Flags T) b && Z.testbit (Flags E) b
       && Z.testbit HereditaryBits b) /\
  (forall (C' : Type) (trC' : ei_traits C'),
     Flags (Select C' T E) = Flags (Select C T E)).
Proof.
  cbn [Flags Select_traits].
  rewrite (to_uint_id _ (Flags_uint T)).
  repeat split.
  intros b _; rewrite !Z.land_spec; reflexivity.
Qed.
End TraitFacts.

(** C9. The node's descriptor takes its element type and its expression
    kind from the then operand, whatever the condition and else operand
    types and their element types are. *)
Theorem Select_Scalar_from_then {K : Constants} (C T E : Type)
  {SC : ScalarType C} {ST : ScalarType T} {SE : ScalarType E}
  {trC : ei_traits C} {trT : ei_traits T} {trE : ei_traits E} :
  Scalar (Select C T E) = Scalar T /\
  XprKind (Select C T E) = XprKind T.
Proof. split; reflexivity. Qed.

(** ** The documentation's scenarios *)

(** A plain matrix supports linear access in column-major order. *)
Lemma Matrix_LinearAccess (S : Type) (m : Matrix S) : LinearAccess ColMajor m.
Proof.
  intros i _; cbn.
  rewrite (Z.mul_comm (i / mx_rows m)), Z.add_comm.
  rewrite <- Z_div_mod_eq_full; reflexivity.
Qed.

Lemma Select_coeff_dispatch_witness :
  coeff node22 0 0 = coeff then22 0 0 /\ coeff node22 0 1 = coeff else22 0 1.
Proof.
  assert (H : forall i j, 0 <= i < 2 -> 0 <= j < 2 ->
    (coeff cond22 i j <> zero -> coeff node22 i j = coeff then22 i j) /\
    (coeff cond22 i j = zero ->
     coeff node22 i j = implicit_conv (coeff else22 i j))).
  { intros i j; apply (Select_coeff_dispatch cond22 then22 else22 node22 2 2);
      reflexivity. }
  split.
  - apply (H 0 0); [lia | lia | vm_compute; discriminate].
  - apply (H 0 1); [lia | lia | reflexivity].
Defined.

Lemma Select_coeff1_dispatch_witness :
  coeff1 node22 2 = coeff else22 0 1 /\ coeff1 node22 2 = coeff node22 0 1.
Proof.
  pose proof (Select_coeff1_dispatch ColMajor cond22 then22 else22 node22 2
                eq_refl (Matrix_LinearAccess _ _) (Matrix_LinearAccess _ _)
                (Matrix_LinearAccess _ _)) as H.
  destruct H as (_ & He & Hn); [vm_compute; split; congruence |].
  split; [rewrite He; reflexivity | exact Hn].
Defined.

Lemma select_elseScalar_promotes_witness :
  exists n1 n2 : Select (Matrix bool) (Matrix Z) (ConstantReturnType (Matrix Z)),
    select_elseScalar cond12 then12 0 = Ok n1 /\
    select cond12 then12 zeros12 = Ok n2 /\
    coeff n1 0 0 = coeff n2 0 0 /\ coeff n1 0 1 = coeff n2 0 1.
Proof.
  destruct (select_elseScalar_promotes (ST := Matrix_Scalar Z)
              cond12 then12 0 zeros12) as [H _];
    [reflexivity | reflexivity | intros; reflexivity |].
  destruct (H _ eq_refl) as (n2 & H2 & Hc).
  eexists; exists n2; split; [reflexivity |]; split; [exact H2 |].
  split; apply Hc; vm_compute; split; congruence.
Defined.

Lemma Select_shape_witness :
  exists n : Select (Matrix bool) (Matrix Z) (Matrix Z),
    Select_ctor cond03 then03 else03 = Ok n /\ rows n = 0 /\ cols n = 3.
Proof.
  exists node03; split; [reflexivity |].
  change (rows node03 = rows cond03 /\ cols node03 = cols cond03).
  apply (proj1 (Select_shape (K := example_Constants) (trD := cond_traits)
                  (trT := then_traits) (trE := else_traits)
                  (ST := Matrix_Scalar Z) (SE := Matrix_Scalar Z)
                  cond03 then03 else03 0 0)).
  reflexivity.
Defined.

Lemma Select_ctor_fails_iff_witness :
  Select_ctor cond23 then22 else22 = PreconditionViolation /\
  Select_ctor cond22 then22 else22 = Ok node22.
Proof.
  split.
  - apply (proj1 (Select_ctor_fails_iff cond23 then22 else22)).
    vm_compute; intros (_ & _ & H & _); discriminate H.
  - apply (proj1 (proj2 (Select_ctor_fails_iff cond22 then22 else22))).
    repeat split.
Defined.

Lemma select_scalar_overloads_witness :
  select_elseScalar cond12 then12 0
  = Ok {| m_condition := cond12; m_then := then12; m_else := zeros12 |} /\
  select_thenScalar (SE := Matrix_Scalar Z) cond12 7 then12
  = Ok {| m_condition := cond12; m_then := sevens12; m_else := then12 |} /\
  select_elseScalar cond12 then22 0 = PreconditionViolation /\
  select_thenScalar (SE := Matrix_Scalar Z) cond12 7 then22
  = PreconditionViolation.
Proof.
  destruct (select_scalar_overloads (ST := Matrix_Scalar Z)
              (SE := Matrix_Scalar Z) cond12 then12 then12 0 7)
    as (_ & He & _ & Ht & _).
  destruct (select_scalar_overloads (ST := Matrix_Scalar Z)
              (SE := Matrix_Scalar Z) cond12 then22 then22 0 7)
    as (_ & _ & He' & _ & Ht' & _).
  split; [apply He; split; reflexivity |].
  split; [apply Ht; split; reflexivity |].
  split; [apply He' | apply Ht'];
    vm_compute; intros [H _]; discriminate H.
Defined.

(** The scenarios of the documentation, evaluated. *)
Example scenario_2x2 :
  (coeff node22 0 0, coeff node22 0 1, coeff node22 1 0, coeff node22 1 1)
  = (1, 20, 30, 4).
Proof. reflexivity. Qed.

Example scenario_scalar_else :
  exists n, select_elseScalar cond12 then12 0 = Ok n /\
            (coeff n 0 0, coeff n 0 1) = (5, 0).
Proof. eexists; split; reflexivity. Qed.

Example scenario_zero_size :
  select cond03 then03 else03 = Ok node03 /\
  rows node03 = 0 /\ cols node03 = 3.
Proof. repeat split. Qed.

Example scenario_mismatch :
  select cond23 then22 else22 = PreconditionViolation.
Proof. reflexivity. Qed.

Example scenario_descriptor :
  Flags (Select (Matrix bool) (Matrix Z) (Matrix Z))
    (ei_traits := Select_traits (K := example_Constants) _ _ _
                    (trC := cond_traits) (trT := then_traits)
                    (trE := else_traits)) = 2 /\
  CoeffReadCost (Select (Matrix bool) (Matrix Z) (Matrix Z))
    (ei_traits := Select_traits (K := example_Constants) _ _ _
                    (trC := cond_traits) (trT := then_traits)
                    (trE := else_traits)) = 6.
Proof. split; reflexivity. Qed.

(** With operands of different element types the else coefficient arrives
    converted to the then operand's element type. *)
Example scenario_mixed_element_types :
  select cond11 then11 else11 = Ok node11 /\
  coeff else11 0 0 = 2 /\ coeff node11 0 0 = true.
Proof. repeat split. Qed.

(** * Further properties of the node and of the overloads *)

(** ** The scalar overloads *)

Section ScalarOverloads.
Context {D T E : Type}.
Context {SD : ScalarType D} {ST : ScalarType T} {SE : ScalarType E}.
Context {DD : DenseBase D} {DT : DenseBase T} {DE : DenseBase E}.
Context {CB : ContextualBool (Scalar D)}.

(** X2. A scalar overload fails exactly when the matrix operand's shape
    differs from the invoking expression's: the promoted scalar always has
    the invoking shape, so the outcome does not depend on the scalar. *)
Theorem select_scalar_fails_iff (this : D) (t : T) (e : E)
  (elseScalar : Scalar T) (thenScalar : Scalar E) :
  (select_elseScalar this t elseScalar = PreconditionViolation <->
   ~ (rows this = rows t /\ cols this = cols t)) /\
  (select_thenScalar this thenScalar e = PreconditionViolation <->
   ~ (rows this = rows e /\ cols this = cols e)) /\
  (forall k' : Scalar T,
     select_elseScalar this t elseScalar = PreconditionViolation <->
     select_elseScalar this t k' = PreconditionViolation) /\
  (forall k' : Scalar E,
     select_thenScalar this thenScalar e = PreconditionViolation <->
     select_thenScalar this k' e = PreconditionViolation).
Proof.
  assert (He : forall k : Scalar T,
    select_elseScalar this t k = PreconditionViolation <->
    ~ (rows this = rows t /\ cols this = cols t)).
  { intros k; unfold select_elseScalar, derived.
    destruct (Select_ctor_cases this t
                (Constant T (rows this) (cols this) k)) as [[Hs Hn] | [Hs Hn]];
      rewrite Hn; unfold same_shape in Hs;
      cbn [rows cols Constant_DenseBase Constant cst_rows cst_cols] in Hs.
    - split; [discriminate | tauto].
    - split; [intros _ | reflexivity]; tauto. }
  assert (Ht : forall k : Scalar E,
    select_thenScalar this k e = PreconditionViolation <->
    ~ (rows this = rows e /\ cols this = cols e)).
  { intros k; unfold select_thenScalar, derived.
    destruct (Select_ctor_cases this
                (Constant E (rows this) (cols this) k) e) as [[Hs Hn] | [Hs Hn]];
      rewrite Hn; unfold same_shape in Hs;
      cbn [rows cols Constant_DenseBase Constant cst_rows cst_cols] in Hs.
    - split; [discriminate | tauto].
    - split; [intros _ | reflexivity]; tauto. }
  repeat split; try apply He; try apply Ht; intros H.
  - apply He, (He elseScalar), H.
  - apply He, (He k'), H.
  - apply Ht, (Ht thenScalar), H.
  - apply Ht, (Ht k'), H.
Qed.

(** X3. On a node made by a scalar overload the scalar stands for a whole
    operand: at every coordinate the coefficient is the scalar where the
    condition picks the scalar's side and the matrix operand's coefficient
    elsewhere, for the two-index and for the single-index accessor. *)
Theorem select_scalar_coeff (this : D) (t : T) (e : E)
  (elseScalar : Scalar T) (thenScalar : Scalar E) :
  (forall n, select_elseScalar this t elseScalar = Ok n ->
     (forall i j, coeff n i j
        = if to_bool (coeff this i j) then coeff t i j else elseScalar) /\
     (forall i, coeff1 n i
        = if to_bool (coeff1 this i) then coeff1 t i else elseScalar)) /\
  (forall n, select_thenScalar this thenScalar e = Ok n ->
     (forall i j, coeff n i j
        = if to_bool (coeff this i j) then thenScalar else coeff e i j) /\
     (forall i, coeff1 n i
        = if to_bool (coeff1 this i) then thenScalar else coeff1 e i)).
Proof.
  unfold select_elseScalar, select_thenScalar, derived.
  split; intros n Hn; apply Select_ctor_Ok in Hn as [_ ->]; split; intros;
    cbn [coeff coeff1 Select_DenseBase]; unfold call;
    rewrite ?Select_coeff_run, ?Select_coeff1_run; reflexivity.
Qed.
End ScalarOverloads.

Section ThenScalarPromotion.
Context {D T E : Type} {SD : ScalarType D} {SE : ScalarType E}.
Context {DD : DenseBase D} {DE : DenseBase E}.
Context {CB : ContextualBool (Scalar D)}.
Let ST : ScalarType T := {| Scalar := Scalar E |}.
#[local] Existing Instance ST.
Context {DT : DenseBase T}.
Let CV : ImplicitConv (Scalar E) (Scalar T) := conv_same (Scalar E).
#[local] Existing Instance CV.

(** X1. [select(k, elseExpr)] and [select(constantExpr, elseExpr)], where
    [constantExpr] has the else operand's element type and the invoking
    expression's shape and every coefficient of it is [k], succeed together
    or fail together, and on success the two nodes have the same
    coefficient at every coordinate of the shared shape. *)
Theorem select_thenScalar_promotes (this : D) (k : Scalar E)
  (constantExpr : T) (e : E) :
  rows constantExpr = rows this -> cols constantExpr = cols this ->
  (forall i j, 0 <= i < rows this -> 0 <= j < cols this ->
     coeff constantExpr i j = k) ->
  (forall n1, select_thenScalar this k e = Ok n1 ->
     exists n2, select this constantExpr e = Ok n2 /\
       forall i j, 0 <= i < rows this -> 0 <= j < cols this ->
         coeff n1 i j = coeff n2 i j) /\
  (select_thenScalar this k e = PreconditionViolation ->
   select this constantExpr e = PreconditionViolation).
Proof.
  intros Hr Hc Hk.
  unfold select, select_thenScalar, derived.
  destruct (Select_ctor_cases this constantExpr e) as [[Hs Hn] | [Hs Hn]];
    destruct (Select_ctor_cases this
                (Constant E (rows this) (cols this) k) e)
      as [[Hs' Hn'] | [Hs' Hn']];
    rewrite Hn, Hn'; unfold same_shape in *;
    cbn [rows cols Constant_DenseBase Constant cst_rows cst_cols] in *.
  - split; [| discriminate].
    intros n1 H1; injection H1 as <-; eexists; split; [reflexivity |].
    intros i j Hi Hj.
    cbn [coeff Select_DenseBase]; unfold call.
    rewrite !Select_coeff_run; cbn [fst m_condition m_then m_else].
    cbn [coeff Constant_DenseBase Constant cst_value].
    unfold Nested; rewrite (Hk i j Hi Hj); reflexivity.
  - exfalso; apply Hs'; intuition congruence.
  - exfalso; apply Hs; intuition congruence.
  - split; [discriminate | reflexivity].
Qed.
End ThenScalarPromotion.

(** ** Algebra of the choice *)

Section SameBranches.
Context {C T : Type} {SC : ScalarType C} {ST : ScalarType T}.
Context {DC : DenseBase C} {DT : DenseBase T}.
Context {CB : ContextualBool (Scalar C)}.

(** X5. When the then and the else operand are one and the same
    expression, the condition has no influence: the node has that
    expression's coefficients, for both accessors. *)
Theorem Select_same_branches (c : C) (t : T) (n : Select C T T) :
  Select_ctor c t t = Ok n ->
  (forall i j, coeff n i j = coeff t i j) /\
  (forall i, coeff1 n i = coeff1 t i).
Proof.
  intros Hn; apply Select_ctor_Ok in Hn as [_ ->].
  split; intros; cbn [coeff coeff1 Select_DenseBase]; unfold call;
    rewrite ?Select_coeff_run, ?Select_coeff1_run;
    cbn [fst m_condition m_then m_else]; unfold Nested.
  - destruct (to_bool (coeff c i j)); reflexivity.
  - destruct (to_bool (coeff1 c i)); reflexivity.
Qed.
End SameBranches.

Section SwapBranches.
Context {C C' T E : Type} {SC : ScalarType C} {SC' : ScalarType C'}.
Context {ST : ScalarType T}.
Context {DC : DenseBase C} {DC' : DenseBase C'} {DT : DenseBase T}.
Context {CB : ContextualBool (Scalar C)} {CB' : ContextualBool (Scalar C')}.
Let SE : ScalarType E := {| Scalar := Scalar T |}.
#[local] Existing Instance SE.
Context {DE : DenseBase E}.
Let CVet : ImplicitConv (Scalar E) (Scalar T) := conv_same (Scalar T).
Let CVte : ImplicitConv (Scalar T) (Scalar E) := conv_same (Scalar T).
#[local] Existing Instance CVet.
#[local] Existing Instance CVte.

(** X4. Exchanging the then and else operands (of one element type) while
    inverting the condition gives the same expression: if [c'] has the
    shape of [c], the two constructions succeed together, and wherever the
    coefficient of [c'] is true exactly when that of [c] is false, the two
    nodes have the same coefficient. *)
Theorem Select_swap_branches (c : C) (c' : C') (t : T) (e : E) :
  rows c' = rows c -> cols c' = cols c ->
  (Select_ctor c t e = PreconditionViolation <->
   Select_ctor c' e t = PreconditionViolation) /\
  (forall n n', Select_ctor c t e = Ok n -> Select_ctor c' e t = Ok n' ->
     forall i j, to_bool (coeff c' i j) = negb (to_bool (coeff c i j)) ->
       coeff n i j = coeff n' i j).
Proof.
  intros Hr Hc.
  destruct (Select_ctor_cases c t e) as [[Hs Hn] | [Hs Hn]];
    destruct (Select_ctor_cases c' e t) as [[Hs' Hn'] | [Hs' Hn']];
    rewrite Hn, Hn'; unfold same_shape in *.
  - split; [split; discriminate |].
    intros n n' H H'; injection H as <-; injection H' as <-.
    intros i j Hneg.
    cbn [coeff Select_DenseBase]; unfold call.
    rewrite !Select_coeff_run; cbn [fst m_condition m_then m_else].
    unfold Nested; rewrite Hneg.
    destruct (to_bool (coeff c i j)); reflexivity.
  - exfalso; apply Hs'; intuition congruence.
  - exfalso; apply Hs; intuition congruence.
  - split; [tauto | discriminate].
Qed.
End SwapBranches.

(** ** Nodes as operands of nodes *)

Section NestedThen.
Context {C A B D : Type}.
Context {SC : ScalarType C} {SA : ScalarType A} {SB : ScalarType B}.
Context {SD : ScalarType D}.
Context {DC : DenseBase C} {DA : DenseBase A} {DB : DenseBase B}.
Context {DD : DenseBase D}.
Context {CB : ContextualBool (Scalar C)}.
Context {CVba : ImplicitConv (Scalar B) (Scalar A)}.
Context {CVda : ImplicitConv (Scalar D) (Scalar A)}.
Let CVdn : ImplicitConv (Scalar D) (Scalar (Select C A B)) := CVda.
#[local] Existing Instance CVdn.

(** X6. A node used as the then operand of a second node with the same
    condition is absorbed: [c.select(c.select(a,b), d)] can be built
    exactly when [c.select(a,d)] can, and the two have the same
    coefficients everywhere; the inner else operand [b] is never seen. *)
Theorem Select_then_absorbs (c : C) (a : A) (b : B) (d : D)
  (inner : Select C A B) :
  Select_ctor c a b = Ok inner ->
  (Select_ctor c inner d = PreconditionViolation <->
   Select_ctor c a d = PreconditionViolation) /\
  (forall outer flat,
     Select_ctor c inner d = Ok outer -> Select_ctor c a d = Ok flat ->
     (forall i j, coeff outer i j = coeff flat i j) /\
     (forall i, coeff1 outer i = coeff1 flat i)).
Proof.
  intros Hi; apply Select_ctor_Ok in Hi as [(Hra & Hrb & Hca & Hcb) ->].
  destruct (Select_ctor_cases c {| m_condition := c; m_then := a;
                                   m_else := b |} d) as [[Hs Hn] | [Hs Hn]];
    destruct (Select_ctor_cases c a d) as [[Hs' Hn'] | [Hs' Hn']];
    rewrite Hn, Hn'; unfold same_shape in *;
    cbn [rows cols Select_DenseBase Select_rows Select_cols call read fst
         m_condition] in *; unfold Nested in *.
  - split; [split; discriminate |].
    intros outer flat H H'; injection H as <-; injection H' as <-.
    split; intros; cbn [coeff coeff1 Select_DenseBase]; unfold call;
      rewrite ?Select_coeff_run, ?Select_coeff1_run;
      cbn [fst m_condition m_then m_else];
      cbn [coeff coeff1 Select_DenseBase]; unfold call;
      rewrite ?Select_coeff_run, ?Select_coeff1_run;
      cbn [fst m_condition m_then m_else]; unfold Nested.
    + destruct (to_bool (coeff c i j)); reflexivity.
    + destruct (to_bool (coeff1 c i)); reflexivity.
  - exfalso; apply Hs'; intuition congruence.
  - exfalso; apply Hs; intuition congruence.
  - split; [tauto | discriminate].
Qed.
End NestedThen.

Section NestedElse.
Context {C A B D : Type}.
Context {SC : ScalarType C} {SA : ScalarType A} {SB : ScalarType B}.
Context {SD : ScalarType D}.
Context {DC : DenseBase C} {DA : DenseBase A} {DB : DenseBase B}.
Context {DD : DenseBase D}.
Context {CB : ContextualBool (Scalar C)}.
Context {CVba : ImplicitConv (Scalar B) (Scalar A)}.
Context {CVdb : ImplicitConv (Scalar D) (Scalar B)}.
Context {CVda : ImplicitConv (Scalar D) (Scalar A)}.
Let CVna : ImplicitConv (Scalar (Select C B D)) (Scalar A) := CVba.
#[local] Existing Instance CVna.

(** X7. A node used as the else operand of a second node with the same
    condition is absorbed too, but its coefficients are converted twice on
    the way out (to the inner then type, then to the outer one): provided
    converting in two steps equals converting at once,
    [c.select(a, c.select(b,d))] has the coefficients of [c.select(a,d)]
    and can be built exactly when it can. *)
Theorem Select_else_absorbs (c : C) (a : A) (b : B) (d : D)
  (inner : Select C B D) :
  (forall x : Scalar D,
     @implicit_conv _ _ CVba (@implicit_conv _ _ CVdb x)
     = @implicit_conv _ _ CVda x) ->
  Select_ctor c b d = Ok inner ->
  (Select_ctor c a inner = PreconditionViolation <->
   Select_ctor c a d = PreconditionViolation) /\
  (forall outer flat,
     Select_ctor c a inner = Ok outer -> Select_ctor c a d = Ok flat ->
     (forall i j, coeff outer i j = coeff flat i j) /\
     (forall i, coeff1 outer i = coeff1 flat i)).
Proof.
  intros Hconv Hi.
  apply Select_ctor_Ok in Hi as [(Hrb & Hrd & Hcb & Hcd) ->].
  destruct (Select_ctor_cases c a {| m_condition := c; m_then := b;
                                     m_else := d |}) as [[Hs Hn] | [Hs Hn]];
    destruct (Select_ctor_cases c a d) as [[Hs' Hn'] | [Hs' Hn']];
    rewrite Hn, Hn'; unfold same_shape in *;
    cbn [rows cols Select_DenseBase Select_rows Select_cols call read fst
         m_condition] in *; unfold Nested in *.
  - split; [split; discriminate |].
    intros outer flat H H'; injection H as <-; injection H' as <-.
    split; intros; cbn [coeff coeff1 Select_DenseBase]; unfold call;
      rewrite ?Select_coeff_run, ?Select_coeff1_run;
      cbn [fst m_condition m_then m_else];
      cbn [coeff coeff1 Select_DenseBase]; unfold call;
      rewrite ?Select_coeff_run, ?Select_coeff1_run;
      cbn [fst m_condition m_then m_else]; unfold Nested.
    + destruct (to_bool (coeff c i j)); [reflexivity | apply Hconv].
    + destruct (to_bool (coeff1 c i)); [reflexivity | apply Hconv].
  - exfalso; apply Hs'; intuition congruence.
  - exfalso; apply Hs; intuition congruence.
  - split; [tauto | discriminate].
Qed.
End NestedElse.

(** ** Algebra of the descriptor *)

Lemma land_le_l (a b : Z) : 0 <= a -> Z.land a b <= a.
Proof.
  intros Ha.
  assert (Hd : Z.land (Z.ldiff a b) (Z.land a b) = 0).
  { apply Z.bits_inj'; intros n Hn.
    rewrite !Z.land_spec, Z.ldiff_spec, Z.bits_0.
    destruct (Z.testbit a n), (Z.testbit b n); reflexivity. }
  assert (Hs : Z.ldiff a b + Z.land a b = a).
  { rewrite (Z.add_nocarry_lxor _ _ Hd), (Z.lxor_lor _ _ Hd).
    apply Z.lor_ldiff_and. }
  assert (0 <= Z.ldiff a b) by (apply Z.ldiff_nonneg; auto).
  lia.
Qed.

Section TraitAlgebra.
Context {K : Constants} {C C1 C2 T E F : Type}.
Context {trC : ei_traits C} {trC1 : ei_traits C1} {trC2 : ei_traits C2}.
Context {trT : ei_traits T} {trE : ei_traits E} {trF : ei_traits F}.

(** X8. Exchanging the then and else operand types changes neither the
    flags nor the cost estimate of the descriptor. *)
Theorem Select_traits_swap :
  Flags (Select C T E) = Flags (Select C E T) /\
  CoeffReadCost (Select C T E) = CoeffReadCost (Select C E T).
Proof.
  cbn [Flags CoeffReadCost Select_traits].
  rewrite !to_uint_id by apply Flags_uint.
  unfold EIGEN_SIZE_MAX, ei_cleantype, Nested.
  rewrite (Z.land_comm (Flags T)), (Z.max_comm (CoeffReadCost T)).
  split; reflexivity.
Qed.

(** X9. Flags compose through nested nodes: whether a node sits in the
    then or in the else position of another, the outer flags are the
    conjunction of the three value operands' flags and the mask, applied
    once; the two conditions play no part. *)
Theorem Select_Flags_nested :
  Flags (Select C1 (Select C2 T E) F)
  = Z.land (Z.land (Z.land (Flags T) (Flags E)) (Flags F)) HereditaryBits /\
  Flags (Select C1 T (Select C2 E F))
  = Z.land (Z.land (Z.land (Flags T) (Flags E)) (Flags F)) HereditaryBits.
Proof.
  split.
  - change (Flags (Select C1 (Select C2 T E) F))
      with (Z.land (Z.land (to_uint (Flags (Select C2 T E))) (Flags F))
              HereditaryBits).
    rewrite to_uint_id by apply Flags_uint.
    cbn [Flags Select_traits]; rewrite to_uint_id by apply Flags_uint.
    apply Z.bits_inj'; intros n _; rewrite !Z.land_spec.
    destruct (Z.testbit (Flags T) n), (Z.testbit (Flags E) n),
      (Z.testbit (Flags F) n), (Z.testbit HereditaryBits n); reflexivity.
  - cbn [Flags Select_traits]; rewrite !to_uint_id by apply Flags_uint.
    apply Z.bits_inj'; intros n _; rewrite !Z.land_spec.
    destruct (Z.testbit (Flags T) n), (Z.testbit (Flags E) n),
      (Z.testbit (Flags F) n), (Z.testbit HereditaryBits n); reflexivity.
Qed.

(** X10. The node never claims more than its value operands: as numbers
    its flags are at most the then operand's and at most the else
    operand's, and at most the mask when the mask is not negative; they
    always fit an [unsigned int], whatever the mask is. *)
Theorem Select_Flags_bounds :
  0 <= Flags (Select C T E) < 2 ^ 32 /\
  Flags (Select C T E) <= Flags T /\
  Flags (Select C T E) <= Flags E /\
  (0 <= HereditaryBits -> Flags (Select C T E) <= HereditaryBits).
Proof.
  pose proof (Flags_uint T) as [HT0 HT1].
  pose proof (Flags_uint E) as [HE0 HE1].
  split; [apply (Flags_uint (Select C T E)) |].
  cbn [Flags Select_traits]; rewrite to_uint_id by apply Flags_uint.
  assert (H0 : 0 <= Z.land (Flags T) (Flags E))
    by (apply Z.land_nonneg; auto).
  repeat split.
  - etransitivity; [apply land_le_l; exact H0 | apply land_le_l; exact HT0].
  - etransitivity; [apply land_le_l; exact H0 |].
    rewrite Z.land_comm; apply land_le_l; exact HE0.
  - intros HK; rewrite Z.land_comm; apply land_le_l; exact HK.
Qed.

(** X11. With operand costs that are not negative, the cost estimate of a
    node is at least each operand's cost and at most the sum of the
    three. *)
Theorem Select_CoeffReadCost_bounds :
  0 <= CoeffReadCost C -> 0 <= CoeffReadCost T -> 0 <= CoeffReadCost E ->
  CoeffReadCost C <= CoeffReadCost (Select C T E) /\
  CoeffReadCost T <= CoeffReadCost (Select C T E) /\
  CoeffReadCost E <= CoeffReadCost (Select C T E) /\
  CoeffReadCost (Select C T E)
  <= CoeffReadCost C + CoeffReadCost T + CoeffReadCost E.
Proof.
  cbn [CoeffReadCost Select_traits].
  unfold EIGEN_SIZE_MAX, ei_cleantype, Nested; lia.
Qed.
End TraitAlgebra.

(** ** Shapes and linear access of built nodes *)

Lemma Constant_LinearAccess (Derived : Type) {S : ScalarType Derived}
  (o : StorageOrder) (x : ConstantReturnType Derived) : LinearAccess o x.
Proof. intros i _; reflexivity. Qed.

Section LinearClosure.
Context {C T E : Type}.
Context {SC : ScalarType C} {ST : ScalarType T} {SE : ScalarType E}.
Context {DC : DenseBase C} {DT : DenseBase T} {DE : DenseBase E}.
Context {CB : ContextualBool (Scalar C)}.
Context {CV : ImplicitConv (Scalar E) (Scalar T)}.

Lemma Select_LinearAccess (o : StorageOrder) (c : C) (t : T) (e : E)
  (n : Select C T E) :
  Select_ctor c t e = Ok n ->
  LinearAccess o c -> LinearAccess o t -> LinearAccess o e ->
  LinearAccess o n.
Proof.
  intros Hn Lc Lt Le i Hi.
  apply Select_ctor_Ok in Hn as [(Hrt & Hre & Hct & Hce) ->].
  cbn [rows cols coeff coeff1 Select_DenseBase] in *; unfold call in *.
  rewrite Select_coeff1_run, Select_coeff_run.
  cbn [fst snd Select_rows Select_cols read m_condition m_then m_else] in *.
  unfold Nested in *.
  rewrite (Lc i Hi).
  rewrite (Lt i) by (rewrite <- Hrt, <- Hct; exact Hi).
  rewrite (Le i) by (rewrite <- Hre, <- Hce; exact Hi).
  rewrite <- Hrt, <- Hct, <- Hre, <- Hce; reflexivity.
Qed.
End LinearClosure.

Section BuiltNodes.
Context {C T E : Type}.
Context {SC : ScalarType C} {ST : ScalarType T} {SE : ScalarType E}.
Context {DC : DenseBase C} {DT : DenseBase T} {DE : DenseBase E}.
Context {CB : ContextualBool (Scalar C)}.
Context {CV : ImplicitConv (Scalar E) (Scalar T)}.

(** X12. Every node that was built keeps its three operands at its own
    shape, whichever overload built it: a coordinate that is valid for the
    node is valid for the condition, the then and the else operand, so
    reading the node inside its shape never reads an operand outside of
    its own. *)
Theorem Select_operands_in_range (c : C) (t : T) (e : E)
  (kT : Scalar T) (kE : Scalar E) :
  (forall n, select c t e = Ok n ->
     forall i j, 0 <= i < rows n -> 0 <= j < cols n ->
       (0 <= i < rows (m_condition n) /\ 0 <= j < cols (m_condition n)) /\
       (0 <= i < rows (m_then n) /\ 0 <= j < cols (m_then n)) /\
       (0 <= i < rows (m_else n) /\ 0 <= j < cols (m_else n))) /\
  (forall n, select_elseScalar c t kT = Ok n ->
     forall i j, 0 <= i < rows n -> 0 <= j < cols n ->
       (0 <= i < rows (m_condition n) /\ 0 <= j < cols (m_condition n)) /\
       (0 <= i < rows (m_then n) /\ 0 <= j < cols (m_then n)) /\
       (0 <= i < rows (m_else n) /\ 0 <= j < cols (m_else n))) /\
  (forall n, select_thenScalar c kE e = Ok n ->
     forall i j, 0 <= i < rows n -> 0 <= j < cols n ->
       (0 <= i < rows (m_condition n) /\ 0 <= j < cols (m_condition n)) /\
       (0 <= i < rows (m_then n) /\ 0 <= j < cols (m_then n)) /\
       (0 <= i < rows (m_else n) /\ 0 <= j < cols (m_else n))).
Proof.
  unfold select, select_elseScalar, select_thenScalar, derived.
  split; [| split]; intros n Hn;
    apply Select_ctor_Ok in Hn as [(Hrt & Hre & Hct & Hce) ->];
    intros i j Hi Hj;
    cbn [rows cols Select_DenseBase Constant_DenseBase Constant
         Select_rows Select_cols call read fst cst_rows cst_cols
         m_condition m_then m_else] in *;
    unfold Nested, Index in *; lia.
Qed.

(** X13. Linear access survives scalar promotion: when the invoking
    expression and the matrix operand support linear access in some
    element order, so does the node made by either scalar overload, the
    promoted scalar reading the same at every index. *)
Theorem select_scalar_LinearAccess (o : StorageOrder) (c : C) (t : T)
  (e : E) (kT : Scalar T) (kE : Scalar E) :
  LinearAccess o c ->
  (LinearAccess o t ->
   forall n, select_elseScalar c t kT = Ok n -> LinearAccess o n) /\
  (LinearAccess o e ->
   forall n, select_thenScalar c kE e = Ok n -> LinearAccess o n).
Proof.
  intros Lc; unfold select_elseScalar, select_thenScalar, derived.
  split; intros Lx n Hn;
    (eapply Select_LinearAccess;
     [exact Hn | exact Lc | first [exact Lx | apply Constant_LinearAccess] ..]).
Qed.
End BuiltNodes.

Section NestedLinear.
Context {C1 C2 T E F : Type}.
Context {SC1 : ScalarType C1} {SC2 : ScalarType C2}.
Context {ST : ScalarType T} {SE : ScalarType E} {SF : ScalarType F}.
Context {DC1 : DenseBase C1} {DC2 : DenseBase C2}.
Context {DT : DenseBase T} {DE : DenseBase E} {DF : DenseBase F}.
Context {CB1 : ContextualBool (Scalar C1)}.
Context {CB2 : ContextualBool (Scalar C2)}.
Context {CVet : ImplicitConv (Scalar E) (Scalar T)}.
Context {CVft : ImplicitConv (Scalar F) (Scalar T)}.
Let CVfn : ImplicitConv (Scalar F) (Scalar (Select C2 T E)) := CVft.
#[local] Existing Instance CVfn.

(** X14. Choices nest: for a node [inner] built from [c2], [t], [e] and a
    node [outer] built from [c1], [inner], [f], all five operands have one
    shape, the outer coefficient is the three-way choice
    [c1 ? (c2 ? t : e) : f], and if the five operands support linear
    access in one element order then so does [outer]. *)
Theorem Select_nested (c1 : C1) (c2 : C2) (t : T) (e : E) (f : F)
  (inner : Select C2 T E) (outer : Select C1 (Select C2 T E) F) :
  Select_ctor c2 t e = Ok inner ->
  Select_ctor c1 inner f = Ok outer ->
  (rows outer = rows c1 /\ rows c2 = rows c1 /\ rows t = rows c1 /\
   rows e = rows c1 /\ rows f = rows c1) /\
  (cols outer = cols c1 /\ cols c2 = cols c1 /\ cols t = cols c1 /\
   cols e = cols c1 /\ cols f = cols c1) /\
  (forall i j, coeff outer i j
     = if to_bool (coeff c1 i j)
       then if to_bool (coeff c2 i j)
            then coeff t i j
            else @implicit_conv _ _ CVet (coeff e i j)
       else @implicit_conv _ _ CVft (coeff f i j)) /\
  (forall o, LinearAccess o c1 -> LinearAccess o c2 -> LinearAccess o t ->
     LinearAccess o e -> LinearAccess o f -> LinearAccess o outer).
Proof.
  intros Hi Ho.
  assert (Li : forall o, LinearAccess o c2 -> LinearAccess o t ->
                 LinearAccess o e -> LinearAccess o inner)
    by (intros o; apply Select_LinearAccess; exact Hi).
  assert (Lo : forall o, LinearAccess o c1 -> LinearAccess o inner ->
                 LinearAccess o f -> LinearAccess o outer)
    by (intros o; apply Select_LinearAccess; exact Ho).
  apply Select_ctor_Ok in Hi as [(Hrt & Hre & Hct & Hce) Ei].
  apply Select_ctor_Ok in Ho as [(Hri & Hrf & Hci & Hcf) Eo].
  subst inner outer.
  cbn [rows cols Select_DenseBase Select_rows Select_cols call read fst
       m_condition] in Hri, Hci |- *; unfold Nested in *.
  repeat split; try congruence.
  - intros i j; cbn [coeff Select_DenseBase]; unfold call.
    rewrite Select_coeff_run; cbn [fst m_condition m_then m_else].
    cbn [coeff Select_DenseBase]; unfold call.
    rewrite Select_coeff_run; reflexivity.
  - intros o L1 L2 Lt Le Lf; apply Lo; auto.
Qed.
End NestedLinear.

(** ** Operands that read the same *)

Section SameReads.
Context {C C' T T' E E' : Type}.
Context {SC : ScalarType C} {SC' : ScalarType C'} {ST : ScalarType T}.
Context {SE : ScalarType E} {SE' : ScalarType E'}.
Context {DC : DenseBase C} {DC' : DenseBase C'} {DT : DenseBase T}.
Context {DE : DenseBase E} {DE' : DenseBase E'}.
Context {CB : ContextualBool (Scalar C)} {CB' : ContextualBool (Scalar C')}.
Context {CV : ImplicitConv (Scalar E) (Scalar T)}.
Context {CV' : ImplicitConv (Scalar E') (Scalar T)}.
Let ST' : ScalarType T' := {| Scalar := Scalar T |}.
#[local] Existing Instance ST'.
Context {DT' : DenseBase T'}.
Let CVt' : ImplicitConv (Scalar E') (Scalar T') := CV'.
#[local] Existing Instance CVt'.

(** X15. A node only sees the shapes of its operands and what their
    accessors return inside the shape.  Replacing each operand by another
    expression, possibly of another type, that has the same shape and
    reads the same there (the condition equally true, the then
    coefficients equal, the else coefficients equal once returned) changes
    neither whether the node can be built nor any coefficient inside the
    shape. *)
Theorem Select_same_reads (c : C) (c' : C') (t : T) (t' : T') (e : E)
  (e' : E') :
  rows c' = rows c -> cols c' = cols c ->
  rows t' = rows t -> cols t' = cols t ->
  rows e' = rows e -> cols e' = cols e ->
  (forall i j, 0 <= i < rows c -> 0 <= j < cols c ->
     to_bool (coeff c' i j) = to_bool (coeff c i j) /\
     coeff t' i j = coeff t i j /\
     @implicit_conv _ (Scalar T) _ (coeff e' i j)
     = @implicit_conv _ (Scalar T) _ (coeff e i j)) ->
  (Select_ctor c t e = PreconditionViolation <->
   Select_ctor c' t' e' = PreconditionViolation) /\
  (forall n n', Select_ctor c t e = Ok n -> Select_ctor c' t' e' = Ok n' ->
     rows n' = rows n /\ cols n' = cols n /\
     forall i j, 0 <= i < rows n -> 0 <= j < cols n ->
       coeff n' i j = coeff n i j).
Proof.
  intros Hrc Hcc Hrt Hct Hre Hce Hsame.
  destruct (Select_ctor_cases c t e) as [[Hs Hn] | [Hs Hn]];
    destruct (Select_ctor_cases c' t' e') as [[Hs' Hn'] | [Hs' Hn']];
    rewrite Hn, Hn'; unfold same_shape in *.
  - split; [split; discriminate |].
    intros n n' H H'; injection H as <-; injection H' as <-.
    cbn [rows cols coeff Select_DenseBase Select_rows Select_cols call read
         fst m_condition]; unfold call, Nested.
    split; [exact Hrc | split; [exact Hcc |]].
    intros i j Hi Hj.
    rewrite !Select_coeff_run; cbn [fst m_condition m_then m_else].
    unfold Nested.
    destruct (Hsame i j Hi Hj) as (Hb & Ht & He).
    rewrite Hb; destruct (to_bool (coeff c i j)); [exact Ht | exact He].
  - exfalso; apply Hs'; intuition congruence.
  - exfalso; apply Hs; intuition congruence.
  - split; [tauto | discriminate].
Qed.
End SameReads.

(** ** The further properties on the scenarios *)

Lemma select_thenScalar_promotes_witness :
  exists n1 n2 : Select (Matrix bool) (ConstantReturnType (Matrix Z))
                   (Matrix Z),
    select_thenScalar (SE := Matrix_Scalar Z) cond12 7 then12 = Ok n1 /\
    select cond12 sevens12 then12 = Ok n2 /\
    coeff n1 0 0 = coeff n2 0 0 /\ coeff n1 0 1 = coeff n2 0 1.
Proof.
  pose proof (select_thenScalar_promotes (SE := Matrix_Scalar Z)
                (DT := Constant_DenseBase (Matrix Z))
                cond12 7 sevens12 then12) as H.
  destruct H as [H _]; [reflexivity | reflexivity | intros; reflexivity |].
  destruct (H _ eq_refl) as (n2 & H2 & Hc).
  eexists; exists n2; split; [reflexivity |]; split; [exact H2 |].
  split; apply Hc; vm_compute; split; congruence.
Defined.

Lemma select_scalar_coeff_witness :
  exists n : Select (Matrix bool) (Matrix Z) (ConstantReturnType (Matrix Z)),
    select_elseScalar cond12 then12 0 = Ok n /\
    coeff n 0 0 = 5 /\ coeff n 0 1 = 0 /\ coeff1 n 1 = 0.
Proof.
  destruct (select_scalar_coeff (ST := Matrix_Scalar Z)
              (SE := Matrix_Scalar Z) cond12 then12 then12 0 7) as [H _].
  eexists; split; [reflexivity |].
  destruct (H _ eq_refl) as [H2 H1].
  split; [rewrite H2; reflexivity |].
  split; [rewrite H2 | rewrite H1]; reflexivity.
Defined.

Lemma Select_same_branches_witness :
  coeff same22 0 1 = coeff then22 0 1 /\ coeff1 same22 3 = coeff1 then22 3.
Proof.
  assert (Hn : Select_ctor cond22 then22 then22 = Ok same22)
    by reflexivity.
  destruct (Select_same_branches cond22 then22 same22 Hn) as [H2 H1].
  split; [apply H2 | apply H1].
Defined.

Lemma Select_swap_branches_witness :
  coeff node22 0 0 = coeff swapped22 0 0 /\
  coeff node22 0 1 = coeff swapped22 0 1.
Proof.
  pose proof (Select_swap_branches (T := Matrix Z) (ST := Matrix_Scalar Z)
                (DE := Matrix_DenseBase Z)
                cond22 ncond22 then22 else22) as H.
  destruct H as [_ H]; [reflexivity | reflexivity |].
  assert (Hn : Select_ctor cond22 then22 else22 = Ok node22)
    by reflexivity.
  assert (Hn' : Select_ctor ncond22 else22 then22 = Ok swapped22)
    by reflexivity.
  split; apply (H node22 swapped22 Hn Hn'); reflexivity.
Defined.

Lemma Select_then_absorbs_witness :
  coeff then_nested22 0 0 = coeff flat22 0 0 /\
  coeff then_nested22 0 1 = coeff flat22 0 1 /\
  coeff1 then_nested22 3 = coeff1 flat22 3.
Proof.
  assert (Hi : Select_ctor cond22 then22 else22 = Ok node22) by reflexivity.
  destruct (Select_then_absorbs (A := Matrix Z) (B := Matrix Z)
              (D := Matrix Z) (SA := Matrix_Scalar Z)
              (SB := Matrix_Scalar Z) (SD := Matrix_Scalar Z)
              (CVba := conv_same Z) (CVda := conv_same Z)
              cond22 then22 else22 other22 node22 Hi) as [_ H].
  assert (Ho : Select_ctor cond22 node22 other22 = Ok then_nested22)
    by reflexivity.
  assert (Hf : Select_ctor cond22 then22 other22 = Ok flat22)
    by reflexivity.
  destruct (H then_nested22 flat22 Ho Hf) as [H2 H1].
  split; [apply H2 | split; [apply H2 | apply H1]].
Defined.

Lemma Select_else_absorbs_witness :
  coeff else_nested22 0 0 = coeff flat22 0 0 /\
  coeff else_nested22 0 1 = coeff flat22 0 1 /\
  coeff1 else_nested22 2 = coeff1 flat22 2.
Proof.
  assert (Hi : Select_ctor cond22 then22 other22 = Ok flat22) by reflexivity.
  destruct (Select_else_absorbs (A := Matrix Z) (B := Matrix Z)
              (D := Matrix Z) (SA := Matrix_Scalar Z)
              (SB := Matrix_Scalar Z) (SD := Matrix_Scalar Z)
              (CVba := conv_same Z) (CVdb := conv_same Z)
              (CVda := conv_same Z)
              cond22 then22 then22 other22 flat22 (fun x => eq_refl) Hi)
    as [_ H].
  assert (Ho : Select_ctor cond22 then22 flat22 = Ok else_nested22)
    by reflexivity.
  destruct (H else_nested22 flat22 Ho Hi) as [H2 H1].
  split; [apply H2 | split; [apply H2 | apply H1]].
Defined.

Lemma Select_CoeffReadCost_bounds_witness :
  CoeffReadCost (Select (Matrix bool) (Matrix Z) (Matrix Z))
    (ei_traits := Select_traits (K := example_Constants) _ _ _
                    (trC := cond_traits) (trT := then_traits)
                    (trE := else_traits)) <= 1 + 2 + 5.
Proof.
  apply (Select_CoeffReadCost_bounds (K := example_Constants)
           (trC := cond_traits) (trT := then_traits) (trE := else_traits));
    vm_compute; discriminate.
Defined.

Lemma Select_operands_in_range_witness :
  0 <= 1 < rows (m_then node22) /\ 0 <= 1 < cols (m_then node22).
Proof.
  destruct (Select_operands_in_range (ST := Matrix_Scalar Z)
              (SE := Matrix_Scalar Z) cond22 then22 else22 0 0) as [H _].
  assert (Hn : select cond22 then22 else22 = Ok node22) by reflexivity.
  apply (H node22 Hn 1 1); vm_compute; split; congruence.
Defined.

Lemma select_scalar_LinearAccess_witness :
  exists n : Select (Matrix bool) (Matrix Z) (ConstantReturnType (Matrix Z)),
    select_elseScalar cond12 then12 0 = Ok n /\ coeff1 n 1 = coeff n 0 1.
Proof.
  destruct (select_scalar_LinearAccess (ST := Matrix_Scalar Z)
              (SE := Matrix_Scalar Z) ColMajor cond12 then12 then12 0 7
              (Matrix_LinearAccess _ _)) as [H _].
  eexists; split; [reflexivity |].
  apply (H (Matrix_LinearAccess _ _) _ eq_refl 1).
  vm_compute; split; congruence.
Defined.

Lemma Select_nested_witness :
  rows outer22 = rows ncond22 /\
  coeff outer22 0 1 = coeff else22 0 1 /\
  coeff outer22 0 0 = coeff other22 0 0 /\
  coeff1 outer22 3 = coeff outer22 1 1.
Proof.
  assert (Hi : Select_ctor cond22 then22 else22 = Ok node22) by reflexivity.
  assert (Ho : Select_ctor ncond22 node22 other22 = Ok outer22)
    by reflexivity.
  destruct (Select_nested (T := Matrix Z) (E := Matrix Z) (F := Matrix Z)
              (ST := Matrix_Scalar Z) (SE := Matrix_Scalar Z)
              (SF := Matrix_Scalar Z)
              (CVet := conv_same Z) (CVft := conv_same Z)
              ncond22 cond22 then22 else22 other22 node22 outer22 Hi Ho)
    as ((Hr & _) & _ & Hc & Hl).
  split; [exact Hr |].
  split; [rewrite Hc; reflexivity |].
  split; [rewrite Hc; reflexivity |].
  apply (Hl ColMajor); try apply Matrix_LinearAccess.
  vm_compute; split; congruence.
Defined.

Lemma Select_same_reads_witness :
  exists (n : Select (Matrix bool) (Matrix Z)
                (ConstantReturnType (Matrix Z)))
         (n' : Select (Matrix bool) (Matrix Z) (Matrix Z)),
    select_elseScalar cond12 then12 0 = Ok n /\
    select cond12 then12 zeromat12 = Ok n' /\
    coeff n' 0 0 = coeff n 0 0 /\ coeff n' 0 1 = coeff n 0 1.
Proof.
  pose proof (Select_same_reads (C := Matrix bool) (C' := Matrix bool)
                (T := Matrix Z) (T' := Matrix Z)
                (ST := Matrix_Scalar Z) (SE := Constant_Scalar (Matrix Z))
                (SE' := Matrix_Scalar Z) (DT' := Matrix_DenseBase Z)
                (CV := conv_same Z) (CV' := conv_same Z)
                cond12 cond12 then12 then12 zeros12 zeromat12) as H.
  destruct H as [_ H]; try reflexivity.
  { intros i j Hi Hj.
    change (0 <= i < 1) in Hi; change (0 <= j < 2) in Hj.
    assert (Ei : i = 0) by lia.
    assert (Ej : j = 0 \/ j = 1) by lia.
    subst i; destruct Ej; subst j; repeat split. }
  eexists; eexists; split; [reflexivity |]; split; [reflexivity |].
  destruct (H _ _ eq_refl eq_refl) as (_ & _ & Hc).
  split; apply Hc; vm_compute; split; congruence.
Defined.

(** ** What a read does to the node and to its operands *)

Section CallFacts.
Context {C T E : Type}.
Context {SC : ScalarType C} {ST : ScalarType T} {SE : ScalarType E}.
Context {KC : DenseCalls C} {KT : DenseCalls T} {KE : DenseCalls E}.
Context {CB : ContextualBool (Scalar C)}.
Context {CV : ImplicitConv (Scalar E) (Scalar T)}.

Lemma Select_coeff_call_run (this : Select C T E) (i j : Index) :
  Select_coeff_call i j this =
  if to_bool (fst (coeff_call i j (m_condition this)))
  then (fst (coeff_call i j (m_then this)),
        {| m_condition := snd (coeff_call i j (m_condition this));
           m_then := snd (coeff_call i j (m_then this));
           m_else := m_else this |})
  else (implicit_conv (fst (coeff_call i j (m_else this))),
        {| m_condition := snd (coeff_call i j (m_condition this));
           m_then := m_then this;
           m_else := snd (coeff_call i j (m_else this)) |}).
Proof.
  unfold Select_coeff_call, bind, on_condition, on_then, on_else, ret, Nested.
  destruct (@coeff_call C _ _ i j (m_condition this)) as [c c'].
  cbn [fst snd m_condition m_then m_else].
  destruct (to_bool c); cbn [m_condition m_then m_else].
  - destruct (@coeff_call T _ _ i j (m_then this)); reflexivity.
  - destruct (@coeff_call E _ _ i j (m_else this)); reflexivity.
Qed.

Lemma Select_coeff1_call_run (this : Select C T E) (i : Index) :
  Select_coeff1_call i this =
  if to_bool (fst (coeff1_call i (m_condition this)))
  then (fst (coeff1_call i (m_then this)),
        {| m_condition := snd (coeff1_call i (m_condition this));
           m_then := snd (coeff1_call i (m_then this));
           m_else := m_else this |})
  else (implicit_conv (fst (coeff1_call i (m_else this))),
        {| m_condition := snd (coeff1_call i (m_condition this));
           m_then := m_then this;
           m_else := snd (coeff1_call i (m_else this)) |}).
Proof.
  unfold Select_coeff1_call, bind, on_condition, on_then, on_else, ret, Nested.
  destruct (@coeff1_call C _ _ i (m_condition this)) as [c c'].
  cbn [fst snd m_condition m_then m_else].
  destruct (to_bool c); cbn [m_condition m_then m_else].
  - destruct (@coeff1_call T _ _ i (m_then this)); reflexivity.
  - destruct (@coeff1_call E _ _ i (m_else this)); reflexivity.
Qed.

Lemma Select_eta (this : Select C T E) :
  {| m_condition := m_condition this; m_then := m_then this;
     m_else := m_else this |} = this.
Proof. destruct this; reflexivity. Qed.

(** C7. Reading a coefficient changes nothing by itself.  A call of
    [coeff(i,j)] makes one call of the condition's accessor and one call
    of the accessor of the operand the condition selects, both at
    [(i,j)], and returns what the selected operand returned; the state of
    the node after the call is the state those two calls left, and the
    operand that was not selected is not touched.  Hence, on operands
    whose state their accessors leave unchanged, the call hands the node
    back exactly as it was, and two calls in a row return the same value
    twice; the same holds of [coeff(i)]. *)
Theorem Select_coeff_call_pure (this : Select C T E) (i j : Index) :
  (fst (Select_coeff_call i j this)
   = if to_bool (fst (coeff_call i j (m_condition this)))
     then fst (coeff_call i j (m_then this))
     else implicit_conv (fst (coeff_call i j (m_else this)))) /\
  (m_condition (snd (Select_coeff_call i j this))
   = snd (coeff_call i j (m_condition this))) /\
  (m_then (snd (Select_coeff_call i j this))
   = if to_bool (fst (coeff_call i j (m_condition this)))
     then snd (coeff_call i j (m_then this))
     else m_then this) /\
  (m_else (snd (Select_coeff_call i j this))
   = if to_bool (fst (coeff_call i j (m_condition this)))
     then m_else this
     else snd (coeff_call i j (m_else this))) /\
  (unchanged_by (coeff_call i j) (m_condition this) ->
   unchanged_by (coeff_call i j) (m_then this) ->
   unchanged_by (coeff_call i j) (m_else this) ->
   unchanged_by (Select_coeff_call i j) this /\
   (v1 <- Select_coeff_call i j ;; v2 <- Select_coeff_call i j ;;
    ret (v1, v2)) this
   = ((fst (Select_coeff_call i j this), fst (Select_coeff_call i j this)),
      this)) /\
  (unchanged_by (coeff1_call i) (m_condition this) ->
   unchanged_by (coeff1_call i) (m_then this) ->
   unchanged_by (coeff1_call i) (m_else this) ->
   unchanged_by (Select_coeff1_call i) this /\
   (v1 <- Select_coeff1_call i ;; v2 <- Select_coeff1_call i ;;
    ret (v1, v2)) this
   = ((fst (Select_coeff1_call i this), fst (Select_coeff1_call i this)),
      this)).
Proof.
  repeat match goal with |- _ /\ _ => split end.
  - rewrite Select_coeff_call_run; unfold Nested.
    destruct (to_bool (fst (@coeff_call C _ _ i j (m_condition this))));
      reflexivity.
  - rewrite Select_coeff_call_run; unfold Nested.
    destruct (to_bool (fst (@coeff_call C _ _ i j (m_condition this))));
      reflexivity.
  - rewrite Select_coeff_call_run; unfold Nested.
    destruct (to_bool (fst (@coeff_call C _ _ i j (m_condition this))));
      reflexivity.
  - rewrite Select_coeff_call_run; unfold Nested.
    destruct (to_bool (fst (@coeff_call C _ _ i j (m_condition this))));
      reflexivity.
  - unfold unchanged_by; intros Hc Ht He.
    assert (Hu : snd (Select_coeff_call i j this) = this).
    { rewrite Select_coeff_call_run; unfold Nested in *.
      destruct (to_bool (fst (@coeff_call C _ _ i j (m_condition this))));
        cbn [snd]; rewrite Hc, ?Ht, ?He; apply Select_eta. }
    split; [exact Hu |].
    unfold bind, ret.
    destruct (Select_coeff_call i j this) as [v this'] eqn:Hrun.
    cbn [snd fst] in Hu |- *; subst this'; rewrite Hrun; reflexivity.
  - unfold unchanged_by; intros Hc Ht He.
    assert (Hu : snd (Select_coeff1_call i this) = this).
    { rewrite Select_coeff1_call_run; unfold Nested in *.
      destruct (to_bool (fst (@coeff1_call C _ _ i (m_condition this))));
        cbn [snd]; rewrite Hc, ?Ht, ?He; apply Select_eta. }
    split; [exact Hu |].
    unfold bind, ret.
    destruct (Select_coeff1_call i this) as [v this'] eqn:Hrun.
    cbn [snd fst] in Hu |- *; subst this'; rewrite Hrun; reflexivity.
Qed.
End CallFacts.

Section ConstOperands.
Context {C T E : Type}.
Context {SC : ScalarType C} {ST : ScalarType T} {SE : ScalarType E}.
Context {DC : DenseBase C} {DT : DenseBase T} {DE : DenseBase E}.
Context {CB : ContextualBool (Scalar C)}.
Context {CV : ImplicitConv (Scalar E) (Scalar T)}.

(** On operands whose accessors only read them, the accessors of the
    node as calls are the accessors of the node as reads. *)
Lemma Select_coeff_call_const (this : Select C T E) (i j : Index) :
  Select_coeff_call (KC := const_calls C) (KT := const_calls T)
    (KE := const_calls E) i j this = Select_coeff i j this /\
  Select_coeff1_call (KC := const_calls C) (KT := const_calls T)
    (KE := const_calls E) i this = Select_coeff1 i this.
Proof.
  rewrite Select_coeff_call_run, Select_coeff1_call_run.
  rewrite Select_coeff_run, Select_coeff1_run.
  cbn [coeff_call coeff1_call const_calls read fst snd].
  rewrite Select_eta; unfold Nested.
  split.
  - destruct (to_bool (@coeff C _ _ (m_condition this) i j)); reflexivity.
  - destruct (to_bool (@coeff1 C _ _ (m_condition this) i)); reflexivity.
Qed.
End ConstOperands.

Lemma Select_coeff_call_pure_witness :
  Select_coeff_call 0 1 node22 = (20, node22) /\
  (v1 <- Select_coeff_call 0 1 ;; v2 <- Select_coeff_call 0 1 ;;
   ret (v1, v2)) node22 = ((20, 20), node22).
Proof.
  destruct (Select_coeff_call_pure node22 0 1) as (Hv & _ & _ & _ & H & _).
  destruct H as [Hu Hb]; try reflexivity.
  split.
  - rewrite (surjective_pairing (Select_coeff_call 0 1 node22)).
    rewrite Hu, Hv; reflexivity.
  - rewrite Hb, Hv; reflexivity.
Defined.

(** Nothing is remembered between two reads: on operands that count the
    reads made of them, a second read of the same coefficient sees the
    operand as the first read left it. *)
Example Select_coeff_call_counting :
  (v1 <- Select_coeff_call 0 0 ;; v2 <- Select_coeff_call 0 0 ;;
   ret (v1, v2)) counting22
  = ((0, 1),
     {| m_condition := cond22; m_then := {| reads := 2 |};
        m_else := {| reads := 10 |} |}) /\
  (v1 <- Select_coeff_call 0 1 ;; v2 <- Select_coeff_call 0 1 ;;
   ret (v1, v2)) counting22
  = ((10, 11),
     {| m_condition := cond22; m_then := {| reads := 0 |};
        m_else := {| reads := 12 |} |}).
Proof. split; reflexivity. Qed.
